(** * RTMP chunk codec (rtmpy/protocol/rtmp/codec.py): model and properties

    The Python classes [Channel], [Codec], [FrameReader], [ChannelDemuxer],
    [Decoder], [ChannelMuxer] and [Encoder] are embedded as state records
    with explicit state passing.  A Python call either returns, raises (the
    mutations made before the [raise] stay visible) or loops for ever; the
    three outcomes are the constructors of [Outcome]. *)

From Stdlib Require Import ZArith List Lia Bool ZifyBool.
From Stdlib.Strings Require Import Byte.
From stdpp Require Import base option list gmap.

Local Open Scope Z_scope.

(** ** Constants of codec.py *)

Definition FRAME_SIZE : Z := 128.
Definition MAX_CHANNELS : Z := 64.
Definition MIN_CHANNEL_ID : Z := 3.

(** Python 2 [str]: a string of bytes. *)
Abbreviation str := (list byte).

(** ** Exceptions and outcomes *)

Inductive Exception : Type :=
| HeaderError      (* header.HeaderError *)
| IndexError
| EncodeError
| IOError
| StopIteration
| TypeError
| AttributeError.

Inductive Outcome (S A : Type) : Type :=
| Returns (a : A) (s : S)
| Raises (e : Exception) (s : S)
| Diverges.
Arguments Returns {S A} a s.
Arguments Raises {S A} e s.
Arguments Diverges {S A}.

(** A method with receiver state [S] and result [A]. *)
Definition M (S A : Type) : Type := S -> Outcome S A.

Definition ret {S A} (a : A) : M S A := fun s => Returns a s.
Definition raise {S A} (e : Exception) : M S A := fun s => Raises e s.
Definition bind {S A B} (m : M S A) (k : A -> M S B) : M S B :=
  fun s => match m s with
           | Returns a s' => k a s'
           | Raises e s' => Raises e s'
           | Diverges => Diverges
           end.
Definition get {S} : M S S := fun s => Returns s s.
Definition modify {S} (f : S -> S) : M S unit := fun s => Returns tt (f s).

Declare Scope py_scope.
Delimit Scope py_scope with py.
Notation "x <- m ;; k" := (bind m (fun x => k))
  (at level 100, m at next level, right associativity) : py_scope.
Notation "m ;;; k" := (bind m (fun _ => k))
  (at level 100, right associativity) : py_scope.
Local Open Scope py_scope.

(** Run a method of a component (state [T]) inside its owner (state [S]). *)
Definition zoom {S T A} (proj : S -> T) (inj : T -> S -> S) (m : M T A) : M S A :=
  fun s => match m (proj s) with
           | Returns a t => Returns a (inj t s)
           | Raises e t => Raises e (inj t s)
           | Diverges => Diverges
           end.

(** ** The byte stream (pyamf.util.BufferedByteStream)

    An external library (PyAMF): the buffer and its read position, with
    the methods the codec calls.  [read] raises [IOError] and moves nothing
    for a positive length beyond the end of the buffer, for -1 at the end of
    the buffer and for a length below -1 (it cannot read backwards); -1
    reads to the end of the buffer. *)
Module BufferedByteStream.

Record t := mk { data : str; position : nat }.

Definition empty : t := mk [] 0.
Definition remaining (s : t) : nat := (length (data s) - position s)%nat.

Definition tell (s : t) : nat := position s.
Definition seek (pos : nat) (s : t) : t := mk (data s) pos.
Definition at_eof (s : t) : bool := (position s =? length (data s))%nat.
(* drop what has been read, the pointer goes back to 0 *)
Definition consume (s : t) : t := mk (drop (position s) (data s)) 0.
(* add bytes at the end, the pointer stays *)
Definition append (d : str) (s : t) : t := mk (data s ++ d) (position s).

Definition read (l : Z) : M t str := fun s =>
  if (l =? -1) && at_eof s then Raises IOError s
  else if (0 <? l) && (Z.of_nat (remaining s) <? l) then Raises IOError s
  else if l <? -1 then Raises IOError s
  else if l <? 0 then
    Returns (drop (position s) (data s)) (mk (data s) (length (data s)))
  else
    Returns (take (Z.to_nat l) (drop (position s) (data s)))
            (mk (data s) (position s + Z.to_nat l)).

(** [read(None)], the call [Channel.readFrame] makes on a channel without
    a header.  Python 2 orders None below every number: None is neither
    -1 nor above 0, and it is below -1, so the last guard of [read]
    raises. *)
Definition read_None : M t str := raise IOError.

End BufferedByteStream.

(** ** Headers (module rtmpy.protocol.rtmp.header, not part of the sources) *)
Module header.

(** Modelled from the spec: the [Header] class is missing.  An absolute
    header carries every field; a relative header carries the fields of
    its wire form and [None] for the absent ones. *)
Record Absolute := mkAbsolute {
  channelId : Z;
  timestamp : Z;
  datatype : Z;
  bodyLength : Z;
  streamId : Z
}.

Record Relative := mkRelative {
  rel_channelId : Z;
  rel_timestamp : option Z;      (* a delta to add *)
  rel_datatype : option Z;
  rel_bodyLength : option Z;
  rel_streamId : option Z
}.

Inductive Header :=
| Abs (a : Absolute)             (* relative = False *)
| Rel (r : Relative).            (* relative = True *)

Definition relative (h : Header) : bool :=
  match h with Abs _ => false | Rel _ => true end.

Definition id (h : Header) : Z :=
  match h with Abs a => channelId a | Rel r => rel_channelId r end.

(** Modelled from the spec: [mergeHeaders] is missing.  Each field the
    incoming form encodes replaces the prior one, the others are
    inherited; the timestamp of a relative header is a delta added to the
    prior timestamp; the result is absolute. *)
Definition mergeHeaders (old : Absolute) (new : Relative) : Absolute :=
  {| channelId := channelId old;
     timestamp := match rel_timestamp new with
                  | Some delta => timestamp old + delta
                  | None => timestamp old
                  end;
     datatype := default (datatype old) (rel_datatype new);
     bodyLength := default (bodyLength old) (rel_bodyLength new);
     streamId := default (streamId old) (rel_streamId new) |}.

(** Reading unsigned integers off the stream. *)
Definition byte_val (b : byte) : Z := Z.of_N (Byte.to_N b).

Definition big_endian (bs : str) : Z :=
  fold_left (fun acc b => acc * 256 + byte_val b) bs 0.
Definition little_endian (bs : str) : Z := big_endian (rev bs).

Definition read_uint (n : nat) (little : bool) : M BufferedByteStream.t Z :=
  bs <- BufferedByteStream.read (Z.of_nat n) ;;
  ret (if little then little_endian bs else big_endian bs).

(** A 3-byte timestamp field; the 4-byte extended timestamp that follows
    the fixed portion when the field is 0xFFFFFF is read by [extended]. *)
Definition extended (ts : Z) : M BufferedByteStream.t Z :=
  if ts =? 16777215 then read_uint 4 false else ret ts.

(** Modelled from the spec: [decodeHeader] is missing.  Byte 0 holds the
    format in bits 7-6 and the channel id (or an escape, 0 or 1) in bits
    5-0; format 0 is Full, 1 has timestamp delta, length and type, 2 has
    the timestamp delta, 3 is a continuation.  Running out of bytes
    raises [IOError]. *)
Definition decodeHeader : M BufferedByteStream.t Header :=
  b0 <- read_uint 1 false ;;
  let format := Z.shiftr b0 6 in
  let low := Z.land b0 63 in
  cid <- (if low =? 0 then (b <- read_uint 1 false ;; ret (64 + b))
          else if low =? 1 then (b <- read_uint 2 true ;; ret (64 + b))
          else ret low) ;;
  if format =? 3 then
    ret (Rel (mkRelative cid None None None None))
  else if format =? 2 then
    ts <- read_uint 3 false ;;
    ts <- extended ts ;;
    ret (Rel (mkRelative cid (Some ts) None None None))
  else if format =? 1 then
    ts <- read_uint 3 false ;;
    len <- read_uint 3 false ;;
    dt <- read_uint 1 false ;;
    ts <- extended ts ;;
    ret (Rel (mkRelative cid (Some ts) (Some dt) (Some len) None))
  else
    ts <- read_uint 3 false ;;
    len <- read_uint 3 false ;;
    dt <- read_uint 1 false ;;
    sid <- read_uint 4 true ;;
    ts <- extended ts ;;
    ret (Abs (mkAbsolute cid ts dt len sid)).

End header.

(** Modelled from the spec: [message.STREAMABLE_TYPES] is missing; the
    streamable set is audio and video, 0x08 and 0x09. *)
Module message.
Definition STREAMABLE_TYPES : list Z := [8; 9].
End message.

(** ** Channel *)
Module Channel.

Record t := mk {
  channelId : Z;
  header : option header.Absolute;
  frameSize : Z;
  bytes : Z;
  bodyRemaining : option Z;          (* None after reset *)
  frameRemaining : Z
}.

Definition reset (c : t) : t :=
  mk (channelId c) (header c) (frameSize c) 0 None (frameSize c).

(* Channel(channelId, codec, stream): frameSize is codec.frameSize *)
Definition __init__ (channelId : Z) (codec_frameSize : Z) : t :=
  reset (mk channelId None codec_frameSize 0 None 0).

(* self.header = h; self.bodyRemaining = self.header.bodyLength - self.bytes *)
Definition assign (h : header.Absolute) (c : t) : t :=
  mk (channelId c) (Some h) (frameSize c) (bytes c)
     (Some (header.bodyLength h - bytes c)) (frameRemaining c).

Definition setHeader (new : header.Header) : M t unit := fun c =>
  match new with
  | header.Rel r =>
      match header c with
      | None => Raises HeaderError c
      | Some old => Returns tt (assign (header.mergeHeaders old r) c)
      end
  | header.Abs a => Returns tt (assign a c)
  end.

(** [while l >= size: l -= size].  With [size <= 0] the loop never ends
    once entered; [None] stands for that. *)
Fixpoint drop_frames (fuel : nat) (l size : Z) : option Z :=
  match fuel with
  | O => None
  | S fuel' => if l >=? size then drop_frames fuel' (l - size) size else Some l
  end.

Definition _adjustFrameRemaining (l : Z) : M t unit := fun c =>
  let size := frameSize c in
  match drop_frames (S (Z.to_nat l)) l size with
  | None => Diverges
  | Some l =>
      let '(l, remaining) :=
        if l >=? frameRemaining c then (l - frameRemaining c, size)
        else (l, frameRemaining c) in
      Returns tt (mk (channelId c) (header c) (frameSize c) (bytes c)
                     (bodyRemaining c) (remaining - l))
  end.

(* self.bytes += l; self.bodyRemaining -= l *)
Definition advance (l : Z) (c : t) : t :=
  mk (channelId c) (header c) (frameSize c) (bytes c + l)
     (option_map (fun r => r - l) (bodyRemaining c)) (frameRemaining c).

Definition in_channel {A} (m : M t A) : M (t * BufferedByteStream.t) A :=
  zoom fst (fun c s => (c, snd s)) m.
Definition in_stream {A} (m : M BufferedByteStream.t A)
  : M (t * BufferedByteStream.t) A :=
  zoom snd (fun st s => (fst s, st)) m.

(** The channel reads from the stream it shares with its codec.  Before
    any header is set [bodyRemaining] is [None]; the minimum Python 2
    takes is then None, [read(None)] is called, and [self.bytes += l]
    would fail on None after it. *)
Definition readFrame : M (t * BufferedByteStream.t) str := fun s =>
  match bodyRemaining (fst s) with
  | None => (in_stream BufferedByteStream.read_None ;;; raise TypeError) s
  | Some r =>
      let l := Z.min (frameRemaining (fst s)) (Z.min (frameSize (fst s)) r) in
      (data <- in_stream (BufferedByteStream.read l) ;;
       in_channel (modify (advance l)) ;;;
       in_channel (_adjustFrameRemaining l) ;;;
       ret data) s
  end.

(* not self.bodyRemaining *)
Definition complete (c : t) : bool :=
  match bodyRemaining c with
  | None => true
  | Some r => r =? 0
  end.

(** [channel.writeFrame()], which [ChannelMuxer.next] calls: class
    [Channel] defines no method of this name, and the attribute lookup
    raises. *)
Definition writeFrame : M t unit := raise AttributeError.

End Channel.

(** ** Codec *)
Module Codec.

Record t := mk {
  stream : BufferedByteStream.t;
  channels : gmap Z Channel.t;
  frameSize : Z
}.

Definition __init__ (stream : option BufferedByteStream.t) : t :=
  mk (default BufferedByteStream.empty stream) ∅ FRAME_SIZE.

Definition with_frameSize (size : Z) (c : Channel.t) : Channel.t :=
  Channel.mk (Channel.channelId c) (Channel.header c) size (Channel.bytes c)
             (Channel.bodyRemaining c) (Channel.frameRemaining c).

Definition setFrameSize (size : Z) (s : t) : t :=
  mk (stream s) (with_frameSize size <$> channels s) size.

Definition getChannel (channelId : Z) : M t Channel.t := fun s =>
  match channels s !! channelId with
  | Some channel => Returns channel s
  | None =>
      if channelId >? MAX_CHANNELS then Raises IndexError s
      else
        let channel := Channel.__init__ channelId (frameSize s) in
        Returns channel (mk (stream s) (<[channelId := channel]> (channels s))
                            (frameSize s))
  end.

(** Methods of the channel object stored under [channelId], whose current
    value is [channel]; the channel and the codec share the stream. *)
Definition on_channel {A} (channelId : Z) (channel : Channel.t)
    (m : M (Channel.t * BufferedByteStream.t) A) : M t A :=
  zoom (fun s => (channel, stream s))
       (fun cs s => mk (snd cs) (<[channelId := fst cs]> (channels s)) (frameSize s))
       m.

End Codec.

(** ** FrameReader *)
Module FrameReader.

Definition in_stream {A} (m : M BufferedByteStream.t A) : M Codec.t A :=
  zoom Codec.stream
       (fun st s => Codec.mk st (Codec.channels s) (Codec.frameSize s)) m.

Definition readHeader : M Codec.t header.Header :=
  in_stream header.decodeHeader.

Definition send (data : str) (s : Codec.t) : Codec.t :=
  Codec.mk (BufferedByteStream.append data (Codec.stream s))
           (Codec.channels s) (Codec.frameSize s).

(* the body of the try block *)
Definition read : M Codec.t (str * bool * option header.Absolute) :=
  h <- readHeader ;;
  channel <- Codec.getChannel (header.id h) ;;
  Codec.on_channel (header.id h) channel
    (Channel.in_channel (Channel.setHeader h) ;;;
     bytes <- Channel.readFrame ;;
     c <- Channel.in_channel get ;;
     (if Channel.complete c then Channel.in_channel (modify Channel.reset)
      else ret tt) ;;;
     c <- Channel.in_channel get ;;
     ret (bytes, Channel.complete c, Channel.header c)).

Definition next : M Codec.t (str * bool * option header.Absolute) := fun s =>
  let pos := BufferedByteStream.tell (Codec.stream s) in
  match read s with
  | Raises IOError s' =>
      let rewound :=
        Codec.mk (BufferedByteStream.seek pos (Codec.stream s'))
                 (Codec.channels s') (Codec.frameSize s') in
      if BufferedByteStream.at_eof (Codec.stream rewound) then
        Raises StopIteration
               (Codec.mk (BufferedByteStream.consume (Codec.stream rewound))
                         (Codec.channels rewound) (Codec.frameSize rewound))
      else Raises IOError rewound
  | outcome => outcome
  end.

End FrameReader.

(** ** ChannelDemuxer *)
Module ChannelDemuxer.

Record t := mk {
  codec : Codec.t;                   (* the FrameReader it extends *)
  bucket : gmap Z str
}.

Definition __init__ (stream : option BufferedByteStream.t) : t :=
  mk (Codec.__init__ stream) ∅.

Definition in_reader {A} (m : M Codec.t A) : M t A :=
  zoom codec (fun c s => mk c (bucket s)) m.

Definition set_bucket (b : gmap Z str) (s : t) : t := mk (codec s) b.

(** Returns [Some (data, meta)], or [None] for Python's [None, None]. *)
Definition next : M t (option (str * header.Absolute)) :=
  frame <- in_reader FrameReader.next ;;
  let '(data, complete, meta) := frame in
  match meta with
  | None => raise AttributeError     (* meta.datatype on None *)
  | Some meta =>
      if bool_decide (header.datatype meta ∈ message.STREAMABLE_TYPES) then
        ret (Some (data, meta))
      else if (complete : bool) then
        s <- get ;;
        let channelId := header.channelId meta in
        let data := default [] (bucket s !! channelId) ++ data in
        modify (set_bucket (delete channelId (bucket s))) ;;;
        ret (Some (data, meta))
      else
        s <- get ;;
        let channelId := header.channelId meta in
        modify (set_bucket (<[channelId := default [] (bucket s !! channelId) ++ data]>
                              (bucket s))) ;;;
        ret None
  end.

End ChannelDemuxer.

(** ** Decoder *)
Module Decoder.

(** The collaborators behind [IMessageDelegate] are not part of the codec.
    The stream factory keeps one stream object per stream id, a new one
    with timestamp 0 (as [BaseStream.__init__] sets it); [streams] holds
    the timestamps that differ from it and [resolved] the ids asked for.
    The dispatcher records its calls: stream, datatype, timestamp, data. *)
Record StreamFactory := mkFactory {
  streams : gmap Z Z;
  resolved : list Z
}.

Definition stream_timestamp (f : StreamFactory) (streamId : Z) : Z :=
  default 0 (streams f !! streamId).

Record t := mk {
  demuxer : ChannelDemuxer.t;        (* the ChannelDemuxer it extends *)
  dispatcher : list (Z * Z * Z * str);
  stream_factory : StreamFactory
}.

Definition __init__ (dispatcher : list (Z * Z * Z * str))
    (stream_factory : StreamFactory) (stream : option BufferedByteStream.t) : t :=
  mk (ChannelDemuxer.__init__ stream) dispatcher stream_factory.

Definition in_demuxer {A} (m : M ChannelDemuxer.t A) : M t A :=
  zoom demuxer (fun d s => mk d (dispatcher s) (stream_factory s)) m.

(* stream = self.stream_factory.getStream(streamId) *)
Definition getStream (streamId : Z) : M t Z := fun s =>
  Returns streamId
    (mk (demuxer s) (dispatcher s)
        (mkFactory (streams (stream_factory s))
                   (resolved (stream_factory s) ++ [streamId]))).

(* stream.timestamp += delta; the new value is returned *)
Definition advance_timestamp (stream : Z) (delta : Z) : M t Z := fun s =>
  let now := stream_timestamp (stream_factory s) stream + delta in
  Returns now
    (mk (demuxer s) (dispatcher s)
        (mkFactory (<[stream := now]> (streams (stream_factory s)))
                   (resolved (stream_factory s)))).

Definition dispatchMessage (stream datatype timestamp : Z) (data : str)
  : M t unit := fun s =>
  Returns tt (mk (demuxer s) (dispatcher s ++ [(stream, datatype, timestamp, data)])
                 (stream_factory s)).

Definition next : M t unit :=
  message <- in_demuxer ChannelDemuxer.next ;;
  match message with
  | None => ret tt
  | Some (data, meta) =>
      stream <- getStream (header.streamId meta) ;;
      now <- advance_timestamp stream (header.timestamp meta) ;;
      dispatchMessage stream (header.datatype meta) now data
  end.

End Decoder.

(** ** ChannelMuxer *)
Module ChannelMuxer.

(** [activeChannels] and the keys of [activeChannelsIndex] are references
    to channel objects; an object is named by the id it is stored under
    in [codec.channels]. *)
Record t := mk {
  codec : Codec.t;
  _minChannelId : Z;
  _maxChannels : Z;
  availableChannels : list Z;
  activeChannels : list Z;
  activeChannelsIndex : gmap Z nat;
  channelsInUse : Z
}.

(* xrange(lo, hi) *)
Definition xrange (lo hi : Z) : list Z := seqZ lo (hi - lo).

(* the setter of the minChannelId property *)
Definition set_minChannelId (value : Z) (s : t) : t :=
  mk (codec s) value (MAX_CHANNELS - value) (availableChannels s)
     (activeChannels s) (activeChannelsIndex s) (channelsInUse s).

Definition __init__ (stream : option BufferedByteStream.t) : t :=
  let s := set_minChannelId MIN_CHANNEL_ID (mk (Codec.__init__ stream) 0 0 [] [] ∅ 0) in
  mk (codec s) (_minChannelId s) (_maxChannels s)
     (xrange (_minChannelId s) MAX_CHANNELS) [] ∅ 0.

Definition in_codec {A} (m : M Codec.t A) : M t A :=
  zoom codec
       (fun c s => mk c (_minChannelId s) (_maxChannels s) (availableChannels s)
                      (activeChannels s) (activeChannelsIndex s) (channelsInUse s))
       m.

Definition aquireChannel : M t (option Channel.t) := fun s =>
  match availableChannels s with
  | [] => Returns None s
  | channelId :: rest =>
      (modify (fun s => mk (codec s) (_minChannelId s) (_maxChannels s) rest
                           (activeChannels s) (activeChannelsIndex s)
                           (channelsInUse s + 1)) ;;;
       c <- in_codec (Codec.getChannel channelId) ;;
       modify (fun s =>
                 let active := activeChannels s ++ [channelId] in
                 mk (codec s) (_minChannelId s) (_maxChannels s)
                    (availableChannels s) active
                    (<[channelId := (length active - 1)%nat]> (activeChannelsIndex s))
                    (channelsInUse s)) ;;;
       ret (Some c)) s
  end.

Definition releaseChannel (channelId : Z) : M t unit :=
  in_codec (Codec.getChannel channelId) ;;;
  s <- get ;;
  match activeChannelsIndex s !! channelId with
  | None => raise EncodeError
  | Some idx =>
      (* the pop has happened when del raises *)
      modify (fun s => mk (codec s) (_minChannelId s) (_maxChannels s)
                          (availableChannels s) (activeChannels s)
                          (delete channelId (activeChannelsIndex s))
                          (channelsInUse s)) ;;;
      if (idx <? length (activeChannels s))%nat then
        modify (fun s => mk (codec s) (_minChannelId s) (_maxChannels s)
                            (channelId :: availableChannels s)
                            (delete idx (activeChannels s))
                            (activeChannelsIndex s)
                            (channelsInUse s - 1))
      else raise IndexError
  end.

Definition isFull (s : t) : bool := channelsInUse s =? _maxChannels s.

Definition send (data : str) (datatype streamId timestamp : Z) : M t unit :=
  channel <- aquireChannel ;;
  match channel with
  | None => raise EncodeError
  | Some channel =>
      let h := header.mkAbsolute (Channel.channelId channel) timestamp datatype
                                 (Z.of_nat (length data)) streamId in
      in_codec (Codec.on_channel (Channel.channelId channel) channel
                  (Channel.in_channel (Channel.setHeader (header.Abs h))))
  end.

(** [self.writeHeader(channel)]: none of [Codec], [ChannelMuxer] and
    [Encoder] defines a method of this name, and the attribute lookup
    raises. *)
Definition writeHeader (channel : Channel.t) : M t unit := raise AttributeError.

(** The body of the loop of [next] for the channel object [ref] refers
    to: the header is to be written, then one frame, and the channel is
    released when that completed its message.  The first call fails
    already. *)
Definition visit (ref : Z) : M t unit := fun s =>
  match Codec.channels (codec s) !! ref with
  | None => Raises AttributeError s        (* no reference dangles *)
  | Some channel =>
      (writeHeader channel ;;;
       channel <- in_codec (Codec.on_channel ref channel
                              (Channel.in_channel Channel.writeFrame ;;;
                               Channel.in_channel get)) ;;
       if Channel.complete channel
       then releaseChannel (Channel.channelId channel)
       else ret tt) s
  end.

(** [for channel in self.activeChannels]: the list iterator holds an
    index into the list as it is at each step, and [releaseChannel]
    shortens the list meanwhile.  [next] gives the loop one step more than
    the list is long. *)
Fixpoint for_active (fuel : nat) (i : nat) : M t unit := fun s =>
  match fuel with
  | O => Diverges
  | S fuel' =>
      match activeChannels s !! i with
      | None => Returns tt s
      | Some ref => (visit ref ;;; for_active fuel' (S i)) s
      end
  end.

Definition next : M t unit := fun s =>
  for_active (S (length (activeChannels s))) 0 s.

End ChannelMuxer.

(** ** Encoder *)
Module Encoder.

Record t := mk {
  muxer : ChannelMuxer.t;            (* the ChannelMuxer it extends *)
  pending : list (Z * Z * Z * str)   (* (streamId, datatype, timestamp, data) *)
}.

Definition __init__ (stream : option BufferedByteStream.t) : t :=
  mk (ChannelMuxer.__init__ stream) [].

Definition in_muxer {A} (m : M ChannelMuxer.t A) : M t A :=
  zoom muxer (fun m s => mk m (pending s)) m.

Definition send (data : str) (datatype streamId timestamp : Z) : M t unit :=
  fun s =>
    if ChannelMuxer.isFull (muxer s) then
      Returns tt (mk (muxer s) (pending s ++ [(streamId, datatype, timestamp, data)]))
    else
      in_muxer (ChannelMuxer.send data datatype streamId timestamp) s.

(** The drain loop calls the unbound method [ChannelMuxer.send] with the
    tuple popped from the front of [pending] unpacked as its whole
    argument list: there is no [self], the stream id stands in its place,
    and Python raises [TypeError] before the body of [send] runs.  The
    entry has left the queue by then. *)
Definition send_popped : M t unit := fun s =>
  Raises TypeError (mk (muxer s) (tail (pending s))).

(* while True: if not self.pending or self.isFull(): break; ... *)
Definition drain : M t unit := fun s =>
  match pending s with
  | [] => Returns tt s
  | _ :: _ => if ChannelMuxer.isFull (muxer s) then Returns tt s
              else send_popped s
  end.

Definition next : M t unit :=
  in_muxer ChannelMuxer.next ;;;
  s <- get ;;
  match pending s with
  | [] =>
      match ChannelMuxer.activeChannels (muxer s) with
      | [] => raise StopIteration
      | _ :: _ => ret tt
      end
  | _ :: _ => drain
  end.

End Encoder.

(** * Vocabulary of the properties *)

(** A channel that carries a message: its header is set and its counters
    satisfy the invariants of the data model. *)
Record active (c : Channel.t) (h : header.Absolute) (r : Z) : Prop := {
  active_header : Channel.header c = Some h;
  active_body : Channel.bodyRemaining c = Some r;
  active_bytes : 0 <= Channel.bytes c <= header.bodyLength h;
  active_remaining : r = header.bodyLength h - Channel.bytes c;
  active_frame : 0 < Channel.frameRemaining c <= Channel.frameSize c
}.

(** The length of the next frame. *)
Definition frame_length (c : Channel.t) (r : Z) : Z :=
  Z.min (Channel.frameRemaining c) (Z.min (Channel.frameSize c) r).

(** States of the muxer after any sequence of calls of [aquireChannel] and
    of calls of [releaseChannel] that return. *)
Inductive reachable : ChannelMuxer.t -> Prop :=
| reachable_init stream : reachable (ChannelMuxer.__init__ stream)
| reachable_aquire s r s' :
    reachable s -> ChannelMuxer.aquireChannel s = Returns r s' -> reachable s'
| reachable_release s channelId s' :
    reachable s -> ChannelMuxer.releaseChannel channelId s = Returns tt s' ->
    reachable s'.

Record pool_invariant (s : ChannelMuxer.t) : Prop := {
  pool_total :
    Z.of_nat (length (ChannelMuxer.activeChannels s)
              + length (ChannelMuxer.availableChannels s))
    = MAX_CHANNELS - MIN_CHANNEL_ID;
  pool_in_use :
    Z.of_nat (length (ChannelMuxer.activeChannels s)) = ChannelMuxer.channelsInUse s;
  pool_free_ids :
    Forall (fun id => id <= MAX_CHANNELS) (ChannelMuxer.availableChannels s);
  pool_index_ids :
    map_Forall (fun id _ => id <= MAX_CHANNELS) (ChannelMuxer.activeChannelsIndex s)
}.

(** [k] calls of [readFrame] in a row and the frames they return. *)
Fixpoint read_frames (k : nat) : M (Channel.t * BufferedByteStream.t) (list str) :=
  match k with
  | O => ret []
  | S k' =>
      data <- Channel.readFrame ;;
      rest <- read_frames k' ;;
      ret (data :: rest)
  end.

(** The frames that [k] steps of the frame reader return: the length of
    each and whether it completed its message. *)
Fixpoint next_frames (k : nat) : M Codec.t (list (nat * bool)) :=
  match k with
  | O => ret []
  | S k' =>
      frame <- FrameReader.next ;;
      rest <- next_frames k' ;;
      ret ((length (fst (fst frame)), snd (fst frame)) :: rest)
  end.

(** A run of [send] calls. *)
Fixpoint send_all (messages : list (str * Z * Z * Z)) : M Encoder.t unit :=
  match messages with
  | [] => ret tt
  | (data, datatype, streamId, timestamp) :: rest =>
      Encoder.send data datatype streamId timestamp ;;; send_all rest
  end.

(** The state an outcome leaves, [otherwise] when there is none. *)
Definition state_after {S A} (outcome : Outcome S A) (otherwise : S) : S :=
  match outcome with
  | Returns _ s | Raises _ s => s
  | Diverges => otherwise
  end.

(** Sixty messages of 300 bytes and one of 10 bytes fill the pool; one more
    message, for stream 7, has to wait. *)
Definition saturating : list (str * Z * Z * Z) :=
  repeat (repeat x00 300, 20, 1, 0) 60 ++ [(repeat x00 10, 20, 1, 0)]
  ++ [([x01], 20, 7, 5)].

Definition saturated : Encoder.t :=
  state_after (send_all saturating (Encoder.__init__ None)) (Encoder.__init__ None).

Definition on_stream (streamId : Z) (c : Channel.t) : bool :=
  match Channel.header c with
  | Some h => header.streamId h =? streamId
  | None => false
  end.

(** A run of [releaseChannel] calls on the encoder. *)
Fixpoint release_all (ids : list Z) : M Encoder.t unit :=
  match ids with
  | [] => ret tt
  | channelId :: rest =>
      Encoder.in_muxer (ChannelMuxer.releaseChannel channelId) ;;; release_all rest
  end.

(** The saturated encoder once its 61 channels have been released by
    hand, the last acquired first. *)
Definition released : Encoder.t :=
  state_after (release_all (rev (seqZ 3 61)) saturated) saturated.

(** ** Vocabulary of the further properties *)

(** The number of frames a body of [r] bytes takes at the frame size [n]. *)
Definition frames_needed (r n : Z) : nat := Z.to_nat ((r + n - 1) / n).

(** A reader of the stream that leaves the bytes of the buffer alone. *)
Definition keeps_data {A} (m : M BufferedByteStream.t A) : Prop :=
  forall st,
    match m st with
    | Returns _ st' | Raises _ st' =>
        BufferedByteStream.data st' = BufferedByteStream.data st
    | Diverges => True
    end.

(** A method of a channel that leaves its id, its frame size and the bytes
    of the buffer alone. *)
Definition steady {A} (m : M (Channel.t * BufferedByteStream.t) A) : Prop :=
  forall s,
    match m s with
    | Returns _ s' | Raises _ s' =>
        Channel.channelId (fst s') = Channel.channelId (fst s)
        /\ Channel.frameSize (fst s') = Channel.frameSize (fst s)
        /\ BufferedByteStream.data (snd s') = BufferedByteStream.data (snd s)
    | Diverges => True
    end.

(** Every channel has the frame size of its codec. *)
Definition frame_sizes_agree (s : Codec.t) : Prop :=
  map_Forall (fun _ c => Channel.frameSize c = Codec.frameSize s) (Codec.channels s).

(** Every channel is stored under its own id. *)
Definition ids_agree (s : Codec.t) : Prop :=
  map_Forall (fun channelId c => Channel.channelId c = channelId) (Codec.channels s).

(** A method that raises no other exceptions than the [allowed] ones. *)
Definition raises_only {S A} (allowed : Exception -> Prop) (m : M S A) : Prop :=
  forall s, match m s with Raises e _ => allowed e | _ => True end.

(** The tables of a codec are consistent: each channel is stored under its
    own id and has the frame size of the codec. *)
Record codec_invariant (s : Codec.t) : Prop := {
  codec_sizes : frame_sizes_agree s;
  codec_ids : ids_agree s
}.

(** A reader whose result stands when more bytes are appended to the
    buffer. *)
Definition survives_append {A} (m : M BufferedByteStream.t A) : Prop :=
  forall st a st' d,
    m st = Returns a st' ->
    m (BufferedByteStream.append d st) = Returns a (BufferedByteStream.append d st').

(** The channel a step works on: the one stored under the id, or a new
    one. *)
Definition channel_for (channelId : Z) (s : Codec.t) : Channel.t :=
  default (Channel.__init__ channelId (Codec.frameSize s))
          (Codec.channels s !! channelId).

(** The ids the pool deals in are the ids of the pool, and the channel
    table of the muxer is consistent. *)
Record pool_ids (s : ChannelMuxer.t) : Prop := {
  pool_codec : codec_invariant (ChannelMuxer.codec s);
  pool_available :
    Forall (fun id => MIN_CHANNEL_ID <= id < MAX_CHANNELS) (ChannelMuxer.availableChannels s);
  pool_indexed :
    map_Forall (fun id _ => MIN_CHANNEL_ID <= id < MAX_CHANNELS)
               (ChannelMuxer.activeChannelsIndex s)
}.

(** A pool that is consistent and has the size [__init__] gives it. *)
Record pool_ready (s : ChannelMuxer.t) : Prop := {
  ready_pool : pool_invariant s;
  ready_size : ChannelMuxer._maxChannels s = MAX_CHANNELS - MIN_CHANNEL_ID
}.

(** The entry [Encoder.send] queues for a message. *)
Definition pending_entry (message : str * Z * Z * Z) : Z * Z * Z * str :=
  let '(data, datatype, streamId, timestamp) := message in
  (streamId, datatype, timestamp, data).

(** [k] steps of the frame reader and the frames they return. *)
Fixpoint read_all (k : nat) : M Codec.t (list (str * bool * option header.Absolute)) :=
  match k with
  | O => ret []
  | S k' =>
      frame <- FrameReader.next ;;
      rest <- read_all k' ;;
      ret (frame :: rest)
  end.

(** [k] steps of the demuxer and what they return. *)
Fixpoint demux_all (k : nat) : M ChannelDemuxer.t (list (option (str * header.Absolute))) :=
  match k with
  | O => ret []
  | S k' =>
      message <- ChannelDemuxer.next ;;
      rest <- demux_all k' ;;
      ret (message :: rest)
  end.

(** A frame of a message of channel [channelId] that is not streamable and
    goes on. *)
Definition partial_frame (channelId : Z) (frame : str * bool * option header.Absolute)
  : Prop :=
  exists data meta,
    frame = (data, false, Some meta)
    /\ header.channelId meta = channelId
    /\ header.datatype meta ∉ message.STREAMABLE_TYPES.

(** ** Tactics *)

(* arithmetic, also when it only shows that the case cannot arise *)
Ltac zlia := first [lia | exfalso; lia].

(* reduce, keeping comparisons and arithmetic folded *)
Ltac py_simpl :=
  cbn -[Nat.ltb Nat.leb Z.geb Z.gtb Z.ltb Z.leb Z.eqb Z.min Z.add Z.sub
        Z.of_nat Z.to_nat seqZ] in *.

Ltac unfold_py :=
  unfold Channel.in_channel, Channel.in_stream, Codec.on_channel,
         FrameReader.in_stream, ChannelDemuxer.in_reader, Decoder.in_demuxer,
         ChannelMuxer.in_codec, Encoder.in_muxer in *;
  unfold bind, ret, raise, get, modify, zoom in *.

(** * Properties *)

(** ** The frame countdown loop *)

Lemma drop_frames_small (fuel : nat) (l size : Z) :
  l < size -> Channel.drop_frames (S fuel) l size = Some l.
Proof.
  intros Hlt. cbn [Channel.drop_frames].
  destruct (l >=? size) eqn:E; [zlia | reflexivity].
Qed.

(** With a positive frame size the loop ends, on [l mod size], within the
    fuel [_adjustFrameRemaining] gives it. *)
Lemma drop_frames_terminates (size : Z) :
  0 < size ->
  forall (fuel : nat) (l : Z),
    0 <= l -> (Z.to_nat l < fuel)%nat ->
    Channel.drop_frames fuel l size = Some (l mod size).
Proof.
  intros Hsize. induction fuel as [|fuel IH]; intros l Hl Hfuel; [zlia|].
  cbn [Channel.drop_frames]. destruct (l >=? size) eqn:E.
  - rewrite IH by zlia.
    f_equal. replace l with ((l - size) + 1 * size) at 2 by zlia.
    now rewrite Z.mod_add by zlia.
  - now rewrite Z.mod_small by zlia.
Qed.

(** With a frame size of zero or less the loop, once entered, never ends:
    no amount of fuel yields a result. *)
Lemma drop_frames_diverges (size : Z) :
  size <= 0 ->
  forall (fuel : nat) (l : Z), size <= l -> Channel.drop_frames fuel l size = None.
Proof.
  intros Hsize. induction fuel as [|fuel IH]; intros l Hl; [reflexivity|].
  cbn [Channel.drop_frames]. destruct (l >=? size) eqn:E; [|zlia].
  apply IH. zlia.
Qed.

(** What [_adjustFrameRemaining] leaves in [frameRemaining] for a length
    that does not exceed the frame size. *)
Lemma adjustFrameRemaining_within (c : Channel.t) (l : Z) :
  0 <= l <= Channel.frameSize c ->
  0 < Channel.frameRemaining c <= Channel.frameSize c ->
  Channel._adjustFrameRemaining l c =
    Returns tt
      (Channel.mk (Channel.channelId c) (Channel.header c) (Channel.frameSize c)
                  (Channel.bytes c) (Channel.bodyRemaining c)
                  (if l =? Channel.frameSize c then Channel.frameRemaining c
                   else if l >=? Channel.frameRemaining c
                        then Channel.frameSize c - (l - Channel.frameRemaining c)
                   else Channel.frameRemaining c - l)).
Proof.
  intros Hl Hfr. unfold Channel._adjustFrameRemaining.
  rewrite (drop_frames_terminates (Channel.frameSize c)) by zlia.
  destruct (l =? Channel.frameSize c) eqn:E.
  - apply Z.eqb_eq in E. rewrite E, Z.mod_same by zlia.
    destruct (0 >=? Channel.frameRemaining c) eqn:E'; [zlia|].
    do 2 f_equal. zlia.
  - apply Z.eqb_neq in E. rewrite Z.mod_small by zlia.
    destruct (l >=? Channel.frameRemaining c) eqn:E'; do 2 f_equal; zlia.
Qed.

(** ** Reading from the stream *)

Lemma read_enough (st : BufferedByteStream.t) (l : Z) :
  0 <= l -> (Z.to_nat l <= BufferedByteStream.remaining st)%nat ->
  BufferedByteStream.read l st =
    Returns (take (Z.to_nat l)
                  (drop (BufferedByteStream.position st) (BufferedByteStream.data st)))
            (BufferedByteStream.mk (BufferedByteStream.data st)
                                   (BufferedByteStream.position st + Z.to_nat l)).
Proof.
  intros Hl Hrem. unfold BufferedByteStream.read.
  destruct (l =? -1) eqn:E1; [zlia|]. simpl.
  destruct (l <? -1) eqn:E5; [zlia|].
  destruct (0 <? l) eqn:E2; simpl.
  - destruct (Z.of_nat (BufferedByteStream.remaining st) <? l) eqn:E3; [zlia|].
    destruct (l <? 0) eqn:E4; [zlia | reflexivity].
  - destruct (l <? 0) eqn:E4; [zlia | reflexivity].
Qed.

Lemma read_short (st : BufferedByteStream.t) (l : Z) :
  (BufferedByteStream.remaining st < Z.to_nat l)%nat ->
  BufferedByteStream.read l st = Raises IOError st.
Proof.
  intros Hrem. unfold BufferedByteStream.read.
  destruct ((l =? -1) && BufferedByteStream.at_eof st); [reflexivity|].
  destruct (0 <? l) eqn:E2; [|zlia]. simpl.
  destruct (Z.of_nat (BufferedByteStream.remaining st) <? l) eqn:E3; [reflexivity | zlia].
Qed.

(** ** Setting headers and reading frames *)

(** C1: on a channel without a header, [setHeader] with a relative header
    raises the header (protocol) error and leaves the channel, and so the
    absent header, as it was; with an absolute header on any channel, and
    with a relative header on a channel that has a header, it returns,
    having stored the new or the merged header. *)
Theorem setHeader_relative_needs_prior (c : Channel.t) (new : header.Header) :
  (Channel.header c = None -> header.relative new = true ->
     Channel.setHeader new c = Raises HeaderError c)
  /\ (header.relative new = false ->
        exists a, new = header.Abs a
          /\ Channel.setHeader new c = Returns tt (Channel.assign a c)
          /\ Channel.header (Channel.assign a c) = Some a)
  /\ (forall old, Channel.header c = Some old -> header.relative new = true ->
        exists r, new = header.Rel r
          /\ Channel.setHeader new c =
               Returns tt (Channel.assign (header.mergeHeaders old r) c)
          /\ Channel.header (Channel.assign (header.mergeHeaders old r) c) =
               Some (header.mergeHeaders old r)).
Proof.
  repeat split.
  - intros Hnone Hrel. destruct new as [a|r]; [discriminate|].
    simpl. now rewrite Hnone.
  - intros Habs. destruct new as [a|r]; [|discriminate].
    exists a. repeat split.
  - intros old Hold Hrel. destruct new as [a|r]; [discriminate|].
    exists r. simpl. rewrite Hold. repeat split.
Qed.

Lemma setHeader_relative_needs_prior_witness :
  let fresh := Channel.__init__ 3 FRAME_SIZE in
  let continuation := header.Rel (header.mkRelative 3 None None None None) in
  let full := header.mkAbsolute 3 0 20 50 1 in
  Channel.header fresh = None
  /\ Channel.setHeader continuation fresh = Raises HeaderError fresh
  /\ Channel.setHeader (header.Abs full) fresh =
       Returns tt (Channel.assign full fresh)
  /\ Channel.setHeader continuation (Channel.assign full fresh) =
       Returns tt (Channel.assign full fresh).
Proof.
  intros fresh continuation full.
  destruct (setHeader_relative_needs_prior fresh continuation) as [Hraise _].
  destruct (setHeader_relative_needs_prior fresh (header.Abs full)) as [_ [Habs _]].
  destruct (setHeader_relative_needs_prior (Channel.assign full fresh) continuation)
    as [_ [_ Hrel]].
  split; [reflexivity|]. split; [apply Hraise; reflexivity|].
  split.
  - destruct (Habs eq_refl) as [a [Ha [Hset _]]]. injection Ha as <-. exact Hset.
  - destruct (Hrel full eq_refl eq_refl) as [r [Hr [Hset _]]]. injection Hr as <-.
    exact Hset.
Defined.

(** C2: on an active channel, with n = min(frameRemaining, frameSize,
    bodyRemaining) bytes left in the stream, [readFrame] returns exactly the
    next n bytes, adds n to [bytes], takes n off [bodyRemaining], sets
    [frameRemaining] to [frameSize] when the read ends the frame and takes n
    off it otherwise; the channel stays active, so 0 < frameRemaining <=
    frameSize still holds. *)
Theorem readFrame_advances (c : Channel.t) (st : BufferedByteStream.t)
    (h : header.Absolute) (r : Z) :
  active c h r ->
  let n := frame_length c r in
  (Z.to_nat n <= BufferedByteStream.remaining st)%nat ->
  let data := take (Z.to_nat n)
                (drop (BufferedByteStream.position st) (BufferedByteStream.data st)) in
  let c' := Channel.mk (Channel.channelId c) (Channel.header c) (Channel.frameSize c)
              (Channel.bytes c + n) (Some (r - n))
              (if n =? Channel.frameRemaining c then Channel.frameSize c
               else Channel.frameRemaining c - n) in
  Channel.readFrame (c, st) =
    Returns data
      (c', BufferedByteStream.mk (BufferedByteStream.data st)
                                 (BufferedByteStream.position st + Z.to_nat n))
  /\ Z.of_nat (length data) = n
  /\ active c' h (r - n).
Proof.
  intros [Hh Hb Hbytes Hr Hfr] n Henough data c'.
  assert (Hn : 0 <= n <= Channel.frameRemaining c /\ n <= Channel.frameSize c /\ n <= r)
    by (unfold n, frame_length; zlia).
  split; [|split].
  - unfold Channel.readFrame. cbn [fst snd]. rewrite Hb.
    fold (frame_length c r). fold n.
    unfold_py. cbn [fst snd]. rewrite read_enough by zlia. cbn [fst snd].
    rewrite adjustFrameRemaining_within by (simpl; zlia). simpl.
    rewrite Hb. simpl. unfold c', data. do 3 f_equal.
    clear c' data Henough. clearbody n.
    destruct (n =? Channel.frameSize c) eqn:E1;
      destruct (n =? Channel.frameRemaining c) eqn:E2;
      destruct (n >=? Channel.frameRemaining c) eqn:E3; zlia.
  - unfold data. rewrite length_take, length_drop.
    unfold BufferedByteStream.remaining in Henough. zlia.
  - unfold c'. clearbody n.
    constructor; simpl; try assumption; try reflexivity; try zlia.
    destruct (n =? Channel.frameRemaining c) eqn:E; zlia.
Qed.

Lemma readFrame_advances_witness :
  let h := header.mkAbsolute 3 0 20 300 1 in
  let c := Channel.assign h (Channel.__init__ 3 FRAME_SIZE) in
  let st := BufferedByteStream.mk (repeat x00 300) 0 in
  active c h 300
  /\ Channel.readFrame (c, st) =
       Returns (repeat x00 128)
               (Channel.mk 3 (Some h) 128 128 (Some 172) 128,
                BufferedByteStream.mk (repeat x00 300) 128).
Proof.
  intros h c st.
  assert (Ha : active c h 300)
    by (unfold c, h, FRAME_SIZE; constructor; cbn; first [reflexivity | lia]).
  split; [exact Ha|].
  destruct (readFrame_advances c st h 300 Ha) as [Hread _].
  - vm_compute. lia.
  - exact Hread.
Defined.

(** When the stream holds fewer bytes than the frame needs, [readFrame]
    raises [IOError] and neither the channel nor the stream moves. *)
Lemma readFrame_incomplete (c : Channel.t) (st : BufferedByteStream.t) (r : Z) :
  Channel.bodyRemaining c = Some r ->
  (BufferedByteStream.remaining st < Z.to_nat (frame_length c r))%nat ->
  Channel.readFrame (c, st) = Raises IOError (c, st).
Proof.
  intros Hb Hshort. unfold Channel.readFrame. cbn [fst snd]. rewrite Hb.
  fold (frame_length c r). unfold_py. cbn [fst snd].
  now rewrite read_short.
Qed.

(** ** Channel lookup *)

(** C5: looking up a channel id above MAX_CHANNELS that has no channel
    raises (IndexError, the out-of-range protocol error) and changes
    nothing; an id from 3 to 63 always returns: the stored channel when
    there is one, otherwise a new channel without header, with zeroed
    counters and a full frame countdown, stored under the id. *)
Theorem getChannel_range (s : Codec.t) (channelId : Z) :
  (Codec.channels s !! channelId = None -> MAX_CHANNELS < channelId ->
     Codec.getChannel channelId s = Raises IndexError s)
  /\ (MIN_CHANNEL_ID <= channelId <= 63 ->
      match Codec.channels s !! channelId with
      | Some channel => Codec.getChannel channelId s = Returns channel s
      | None =>
          let channel := Channel.__init__ channelId (Codec.frameSize s) in
          Codec.getChannel channelId s =
            Returns channel
                    (Codec.mk (Codec.stream s)
                              (<[channelId := channel]> (Codec.channels s))
                              (Codec.frameSize s))
          /\ channel = Channel.mk channelId None (Codec.frameSize s) 0 None
                                  (Codec.frameSize s)
      end).
Proof.
  unfold Codec.getChannel, MAX_CHANNELS, MIN_CHANNEL_ID. split.
  - intros -> Hgt. destruct (channelId >? 64) eqn:E; [reflexivity | zlia].
  - intros Hrange. destruct (Codec.channels s !! channelId); [reflexivity|].
    destruct (channelId >? 64) eqn:E; [zlia|]. split; reflexivity.
Qed.

Lemma getChannel_range_witness :
  let s := Codec.__init__ None in
  Codec.getChannel 65 s = Raises IndexError s
  /\ Codec.getChannel 3 s =
       Returns (Channel.mk 3 None 128 0 None 128)
               (Codec.mk BufferedByteStream.empty
                         {[ 3 := Channel.mk 3 None 128 0 None 128 ]} 128).
Proof.
  intros s. split.
  - apply (getChannel_range s 65); [reflexivity | reflexivity].
  - pose proof (proj2 (getChannel_range s 3)) as H.
    change (Codec.channels s !! 3) with (@None Channel.t) in H.
    apply H. unfold MIN_CHANNEL_ID. lia.
Defined.

(** ** The channel pool *)

Lemma pool_invariant_init stream : pool_invariant (ChannelMuxer.__init__ stream).
Proof.
  constructor; cbn -[seqZ].
  - reflexivity.
  - reflexivity.
  - apply Forall_forall. intros id Hin.
    apply list_elem_of_lookup in Hin as [i Hi].
    apply lookup_seqZ in Hi. unfold MAX_CHANNELS, MIN_CHANNEL_ID in *. lia.
  - apply map_Forall_empty.
Qed.

(** An id within range always has a channel to return. *)
Lemma getChannel_returns (s : Codec.t) (channelId : Z) :
  channelId <= MAX_CHANNELS ->
  exists channel s', Codec.getChannel channelId s = Returns channel s'.
Proof.
  intros Hle. unfold Codec.getChannel.
  destruct (Codec.channels s !! channelId); [eauto|].
  destruct (channelId >? MAX_CHANNELS) eqn:E; [zlia | eauto].
Qed.

(** In a state of the pool, [aquireChannel] returns: it never raises. *)
Lemma aquireChannel_returns (s : ChannelMuxer.t) :
  pool_invariant s ->
  exists r s', ChannelMuxer.aquireChannel s = Returns r s'.
Proof.
  intros [_ _ Hfree _]. unfold ChannelMuxer.aquireChannel.
  destruct (ChannelMuxer.availableChannels s) as [|channelId rest]; [eauto|].
  apply Forall_cons in Hfree as [Hid _].
  unfold_py. cbn.
  destruct (getChannel_returns (ChannelMuxer.codec s) channelId Hid) as (c & s' & ->).
  eauto.
Qed.

Lemma pool_invariant_aquire (s s' : ChannelMuxer.t) (r : option Channel.t) :
  pool_invariant s -> ChannelMuxer.aquireChannel s = Returns r s' ->
  pool_invariant s'.
Proof.
  intros Hinv. unfold ChannelMuxer.aquireChannel.
  destruct (ChannelMuxer.availableChannels s) as [|channelId rest] eqn:Havail.
  - intros [= <- <-]. exact Hinv.
  - destruct Hinv as [Htotal Huse Hfree Hindex]. rewrite Havail in Htotal, Hfree.
    apply Forall_cons in Hfree as [Hid Hrest].
    unfold_py. cbn.
    destruct (Codec.getChannel channelId (ChannelMuxer.codec s)) as [c cs|e cs|];
      try discriminate.
    cbn. intros [= <- <-]. cbn in Htotal.
    constructor; cbn; rewrite ?length_app; cbn.
    + lia.
    + lia.
    + assumption.
    + apply map_Forall_insert_2; assumption.
Qed.

Lemma pool_invariant_release (s s' : ChannelMuxer.t) (channelId : Z) :
  pool_invariant s -> ChannelMuxer.releaseChannel channelId s = Returns tt s' ->
  pool_invariant s'.
Proof.
  intros [Htotal Huse Hfree Hindex]. unfold ChannelMuxer.releaseChannel.
  unfold_py. py_simpl.
  destruct (Codec.getChannel channelId (ChannelMuxer.codec s)) as [c cs|e cs|];
    try discriminate.
  py_simpl.
  destruct (ChannelMuxer.activeChannelsIndex s !! channelId) as [idx|] eqn:Hidx;
    [|discriminate].
  py_simpl.
  destruct (idx <? length (ChannelMuxer.activeChannels s))%nat eqn:Hlt;
    [|discriminate].
  intros [= <-]. apply Nat.ltb_lt in Hlt.
  constructor; cbn.
  - rewrite length_delete by (apply lookup_lt_is_Some; exact Hlt). lia.
  - rewrite length_delete by (apply lookup_lt_is_Some; exact Hlt). lia.
  - apply Forall_cons. split; [|assumption].
    exact (Hindex channelId idx Hidx).
  - apply map_Forall_delete; assumption.
Qed.

Lemma reachable_pool_invariant (s : ChannelMuxer.t) :
  reachable s -> pool_invariant s.
Proof.
  induction 1 as [stream | s r s' _ IH Hstep | s channelId s' _ IH Hstep].
  - apply pool_invariant_init.
  - exact (pool_invariant_aquire s s' r IH Hstep).
  - exact (pool_invariant_release s s' channelId IH Hstep).
Qed.

(** C4: in every state of the muxer reached from the initial one by calls
    of [aquireChannel] and returning calls of [releaseChannel], the active
    and the available channels together number MAX_CHANNELS -
    MIN_CHANNEL_ID = 61, and [channelsInUse] is the number of active ones. *)
Theorem pool_conservation (s : ChannelMuxer.t) :
  reachable s ->
  Z.of_nat (length (ChannelMuxer.activeChannels s)
            + length (ChannelMuxer.availableChannels s))
    = MAX_CHANNELS - MIN_CHANNEL_ID
  /\ MAX_CHANNELS - MIN_CHANNEL_ID = 61
  /\ Z.of_nat (length (ChannelMuxer.activeChannels s)) = ChannelMuxer.channelsInUse s.
Proof.
  intros Hreach. destruct (reachable_pool_invariant s Hreach) as [Htotal Huse _ _].
  repeat split; assumption || reflexivity.
Qed.

Lemma pool_conservation_witness :
  let channel id := Channel.mk id None 128 0 None 128 in
  let s := ChannelMuxer.mk
             (Codec.mk BufferedByteStream.empty {[ 3 := channel 3; 4 := channel 4 ]} 128)
             3 61 (3 :: seqZ 5 59) [4] {[ 4 := 1%nat ]} 1 in
  reachable s
  /\ Z.of_nat (length (ChannelMuxer.activeChannels s)
               + length (ChannelMuxer.availableChannels s)) = 61
  /\ Z.of_nat (length (ChannelMuxer.activeChannels s)) = ChannelMuxer.channelsInUse s.
Proof.
  intros channel s.
  assert (Hs : reachable s).
  { eapply reachable_release with (channelId := 3).
    - eapply reachable_aquire.
      + eapply reachable_aquire.
        * apply (reachable_init None).
        * vm_compute. reflexivity.
      + vm_compute. reflexivity.
    - vm_compute. reflexivity. }
  split; [exact Hs|].
  destruct (pool_conservation s Hs) as (Htotal & _ & Huse).
  split; [exact Htotal | exact Huse].
Defined.

(** ** One step of the frame reader *)

Lemma complete_reset (c : Channel.t) : Channel.complete (Channel.reset c) = true.
Proof. reflexivity. Qed.

Lemma setHeader_returns (h : header.Header) (c c' : Channel.t) :
  Channel.setHeader h c = Returns tt c' ->
  exists a, c' = Channel.assign a c
    /\ match h with
       | header.Abs new => a = new
       | header.Rel r => exists old, Channel.header c = Some old
                                     /\ a = header.mergeHeaders old r
       end.
Proof.
  destruct h as [a|r]; simpl.
  - intros [= <-]. eauto.
  - destruct (Channel.header c) as [old|] eqn:Hold; [|discriminate].
    intros [= <-]. eauto.
Qed.

(** [readFrame] moves the counters only: id, header and frame size stay. *)
Lemma readFrame_keeps (c c' : Channel.t) (st st' : BufferedByteStream.t) (data : str) :
  Channel.readFrame (c, st) = Returns data (c', st') ->
  Channel.channelId c' = Channel.channelId c
  /\ Channel.header c' = Channel.header c
  /\ Channel.frameSize c' = Channel.frameSize c.
Proof.
  unfold Channel.readFrame. cbn [fst snd].
  destruct (Channel.bodyRemaining c) as [r|]; [|discriminate].
  unfold_py. cbn [fst snd].
  destruct (BufferedByteStream.read _ st) as [d st1|e st1|]; try discriminate.
  cbn [fst snd]. unfold Channel._adjustFrameRemaining.
  destruct (Channel.drop_frames _ _ _) as [l|]; [|discriminate].
  destruct (l >=? _); cbn; intros [= _ <- _]; auto.
Qed.

(** What a returning [FrameReader.read] has done, step by step. *)
Lemma read_returns (s s' : Codec.t) (data : str) (complete : bool)
    (meta : option header.Absolute) :
  FrameReader.read s = Returns (data, complete, meta) s' ->
  exists h s1 channel s2 c1 c2 st2,
    FrameReader.readHeader s = Returns h s1
    /\ Codec.getChannel (header.id h) s1 = Returns channel s2
    /\ Channel.setHeader h channel = Returns tt c1
    /\ Channel.readFrame (c1, Codec.stream s2) = Returns data (c2, st2)
    /\ let c3 := if Channel.complete c2 then Channel.reset c2 else c2 in
       complete = Channel.complete c2
       /\ meta = Channel.header c3
       /\ s' = Codec.mk st2 (<[header.id h := c3]> (Codec.channels s2))
                        (Codec.frameSize s2).
Proof.
  unfold FrameReader.read. unfold bind at 1.
  destruct (FrameReader.readHeader s) as [h s1|e s1|] eqn:Hh; try discriminate.
  unfold bind at 1.
  destruct (Codec.getChannel (header.id h) s1) as [channel s2|e s2|] eqn:Hc;
    try discriminate.
  unfold Codec.on_channel, zoom. unfold bind at 1. unfold Channel.in_channel at 1.
  unfold zoom at 1. cbn [fst snd].
  destruct (Channel.setHeader h channel) as [[] c1|e c1|] eqn:Hset; try discriminate.
  unfold bind at 1.
  destruct (Channel.readFrame (c1, Codec.stream s2)) as [d [c2 st2]|e cs|] eqn:Hread;
    try discriminate.
  unfold_py. cbn [fst snd].
  intros Hret. exists h, s1, channel, s2, c1, c2, st2.
  destruct (Channel.complete c2) eqn:Hcomplete; cbn [fst snd] in Hret.
  - rewrite complete_reset in Hret. injection Hret as <- <- <- <-.
    repeat split; assumption.
  - rewrite Hcomplete in Hret. injection Hret as <- <- <- <-.
    repeat split; assumption.
Qed.

Lemma next_returns (s s' : Codec.t) (frame : str * bool * option header.Absolute) :
  FrameReader.next s = Returns frame s' -> FrameReader.read s = Returns frame s'.
Proof.
  unfold FrameReader.next.
  destruct (FrameReader.read s) as [a s1|e s1|]; try discriminate; [auto|].
  destruct e; try discriminate.
  destruct (BufferedByteStream.at_eof _); discriminate.
Qed.

(** A frame never comes without its header: the [None] that the demuxer
    would stumble on is not returned. *)
Lemma next_carries_header (s s' : Codec.t) (data : str) (complete : bool)
    (meta : option header.Absolute) :
  FrameReader.next s = Returns (data, complete, meta) s' ->
  exists m, meta = Some m.
Proof.
  intros Hnext. apply next_returns, read_returns in Hnext.
  destruct Hnext as (h & s1 & channel & s2 & c1 & c2 & st2
                     & _ & _ & Hset & Hread & _ & Hmeta & _).
  destruct (readFrame_keeps _ _ _ _ _ Hread) as (_ & Hhdr & _).
  destruct (setHeader_returns _ _ _ Hset) as (a & -> & _).
  exists a. rewrite Hmeta.
  destruct (Channel.complete c2); cbn; rewrite Hhdr; reflexivity.
Qed.

(** C3 as stated does not hold: a one-frame message on channel 3 completes
    in the step, and afterwards the channel still has its header and takes
    a continuation header that a fresh channel refuses. *)
Lemma completed_channel_keeps_header :
  let wire := [x03; x00; x00; x00; x00; x00; x02; x14; x01; x00; x00; x00; xaa; xbb] in
  let s := Codec.__init__ (Some (BufferedByteStream.mk wire 0)) in
  let meta := header.mkAbsolute 3 0 20 2 1 in
  let c' := Channel.mk 3 (Some meta) 128 0 None 128 in
  let continuation := header.Rel (header.mkRelative 3 None None None None) in
  FrameReader.next s =
    Returns ([xaa; xbb], true, Some meta)
            (Codec.mk (BufferedByteStream.mk wire 14) {[ 3 := c' ]} 128)
  /\ Channel.header c' <> None
  /\ Channel.setHeader continuation c' = Returns tt (Channel.assign meta c')
  /\ Channel.setHeader continuation (Channel.__init__ 3 128) =
       Raises HeaderError (Channel.__init__ 3 128).
Proof.
  intros wire s meta c' continuation.
  split; [vm_compute; reflexivity|].
  split; [discriminate|].
  split; reflexivity.
Qed.

(** C3, amended: when a step of the frame reader completes a message, the
    channel named by the decoded header is reset: [bytes] is 0,
    [bodyRemaining] is None and [frameRemaining] is [frameSize]; its header
    is kept, it is the metadata returned with the frame.  An absolute
    header set next gives what it gives on a fresh channel; a relative
    header is merged with the kept header. *)
Theorem completed_channel_is_reset (s s1 s' : Codec.t) (h : header.Header)
    (data : str) (meta : option header.Absolute) :
  FrameReader.readHeader s = Returns h s1 ->
  FrameReader.next s = Returns (data, true, meta) s' ->
  exists c' m,
    Codec.channels s' !! header.id h = Some c'
    /\ meta = Some m
    /\ Channel.header c' = Some m
    /\ Channel.bytes c' = 0
    /\ Channel.bodyRemaining c' = None
    /\ Channel.frameRemaining c' = Channel.frameSize c'
    /\ (forall a, Channel.setHeader (header.Abs a) c' =
                  Channel.setHeader (header.Abs a)
                    (Channel.__init__ (Channel.channelId c') (Channel.frameSize c')))
    /\ (forall a, Channel.setHeader (header.Abs a)
                    (Channel.__init__ (Channel.channelId c') (Channel.frameSize c')) =
                  Returns tt (Channel.mk (Channel.channelId c') (Some a)
                                         (Channel.frameSize c') 0
                                         (Some (header.bodyLength a))
                                         (Channel.frameSize c')))
    /\ (forall r, Channel.setHeader (header.Rel r) c' =
                  Returns tt (Channel.assign (header.mergeHeaders m r) c')).
Proof.
  intros Hh Hnext. apply next_returns, read_returns in Hnext.
  destruct Hnext as (h0 & s1' & channel & s2 & c1 & c2 & st2
                     & Hh' & Hget & Hset & Hread & Hcomplete & Hmeta & Hs').
  rewrite Hh in Hh'. injection Hh' as <- <-.
  rewrite <- Hcomplete in Hmeta, Hs'.
  destruct (readFrame_keeps _ _ _ _ _ Hread) as (Hid & Hhdr & Hsize).
  destruct (setHeader_returns _ _ _ Hset) as (a & -> & _).
  exists (Channel.reset c2), a. subst s'. cbn [Codec.channels].
  rewrite lookup_insert_eq.
  assert (Hkept : Channel.header c2 = Some a) by (rewrite Hhdr; reflexivity).
  repeat split; try reflexivity; try assumption.
  - subst meta. exact Hkept.
  - intros a'. cbn. unfold Channel.assign. cbn. do 3 f_equal. lia.
  - intros r. cbn. now rewrite Hkept.
Qed.

Lemma completed_channel_is_reset_witness :
  let wire := [x03; x00; x00; x00; x00; x00; x02; x14; x01; x00; x00; x00; xaa; xbb] in
  let s := Codec.__init__ (Some (BufferedByteStream.mk wire 0)) in
  let meta := header.mkAbsolute 3 0 20 2 1 in
  exists s1 s' c',
    FrameReader.readHeader s = Returns (header.Abs meta) s1
    /\ FrameReader.next s = Returns ([xaa; xbb], true, Some meta) s'
    /\ Codec.channels s' !! 3 = Some c'
    /\ Channel.header c' = Some meta
    /\ Channel.bytes c' = 0
    /\ Channel.bodyRemaining c' = None.
Proof.
  intros wire s meta.
  assert (Hh : FrameReader.readHeader s =
               Returns (header.Abs meta)
                       (Codec.mk (BufferedByteStream.mk wire 12) ∅ 128))
    by (vm_compute; reflexivity).
  assert (Hnext : FrameReader.next s =
                  Returns ([xaa; xbb], true, Some meta)
                          (Codec.mk (BufferedByteStream.mk wire 14)
                                    {[ 3 := Channel.mk 3 (Some meta) 128 0 None 128 ]} 128))
    by (vm_compute; reflexivity).
  destruct (completed_channel_is_reset _ _ _ _ _ _ Hh Hnext)
    as (c' & m & Hc' & Hm & Hhdr & Hbytes & Hbody & _).
  injection Hm as <-.
  eexists _, _, c'.
  exact (conj Hh (conj Hnext (conj Hc' (conj Hhdr (conj Hbytes Hbody))))).
Defined.

(** Scenario S5: the first byte for channel 3 is a continuation header.
    The channel is created, the header is refused. *)
Lemma continuation_on_fresh_channel :
  FrameReader.next (Codec.__init__ (Some (BufferedByteStream.mk [xc3] 0)))
  = Raises HeaderError
           (Codec.mk (BufferedByteStream.mk [xc3] 1)
                     {[ 3 := Channel.__init__ 3 FRAME_SIZE ]} FRAME_SIZE).
Proof. vm_compute. reflexivity. Qed.

(** ** Demuxer and decoder *)

(** C8: for a frame read by the demuxer: a streamable datatype passes the
    frame bytes on at once and leaves the accumulators alone; otherwise a
    frame that completes its message yields the accumulator of the channel
    id followed by the frame and removes the accumulator, and a frame that
    does not complete it is appended to the accumulator and yields no
    message. *)
Theorem demuxer_next_buffers (d : ChannelDemuxer.t) (data : str) (complete : bool)
    (meta : header.Absolute) (c' : Codec.t) :
  FrameReader.next (ChannelDemuxer.codec d) = Returns (data, complete, Some meta) c' ->
  let channelId := header.channelId meta in
  let held := default [] (ChannelDemuxer.bucket d !! channelId) in
  (header.datatype meta ∈ message.STREAMABLE_TYPES ->
     ChannelDemuxer.next d =
       Returns (Some (data, meta)) (ChannelDemuxer.mk c' (ChannelDemuxer.bucket d)))
  /\ (header.datatype meta ∉ message.STREAMABLE_TYPES -> complete = true ->
        ChannelDemuxer.next d =
          Returns (Some (held ++ data, meta))
                  (ChannelDemuxer.mk c' (delete channelId (ChannelDemuxer.bucket d))))
  /\ (header.datatype meta ∉ message.STREAMABLE_TYPES -> complete = false ->
        ChannelDemuxer.next d =
          Returns None
                  (ChannelDemuxer.mk c' (<[channelId := held ++ data]>
                                           (ChannelDemuxer.bucket d)))).
Proof.
  intros Hframe channelId held.
  unfold ChannelDemuxer.next. unfold_py. rewrite Hframe. cbn [ChannelDemuxer.bucket].
  repeat split.
  - intros Hin. now rewrite bool_decide_eq_true_2.
  - intros Hout ->. now rewrite bool_decide_eq_false_2.
  - intros Hout ->. now rewrite bool_decide_eq_false_2.
Qed.

Lemma demuxer_next_buffers_witness :
  let wire := [x03; x00; x00; x00; x00; x00; x03; x14; x01; x00; x00; x00;
               xaa; xbb; xc3; xcc] in
  let meta := header.mkAbsolute 3 0 20 3 1 in
  let d := ChannelDemuxer.mk
             (Codec.setFrameSize 2 (Codec.__init__ (Some (BufferedByteStream.mk wire 0))))
             ∅ in
  let first := Codec.mk (BufferedByteStream.mk wire 14)
                        {[ 3 := Channel.mk 3 (Some meta) 2 2 (Some 1) 2 ]} 2 in
  let last := Codec.mk (BufferedByteStream.mk wire 16)
                       {[ 3 := Channel.mk 3 (Some meta) 2 0 None 2 ]} 2 in
  ChannelDemuxer.next d =
    Returns None (ChannelDemuxer.mk first {[ 3 := [xaa; xbb] ]})
  /\ ChannelDemuxer.next (ChannelDemuxer.mk first {[ 3 := [xaa; xbb] ]}) =
       Returns (Some ([xaa; xbb; xcc], meta)) (ChannelDemuxer.mk last ∅).
Proof.
  intros wire meta d first last.
  assert (Hplain : header.datatype meta ∉ message.STREAMABLE_TYPES)
    by (apply (bool_decide_unpack _); vm_compute; exact I).
  assert (H1 : FrameReader.next (ChannelDemuxer.codec d) =
               Returns ([xaa; xbb], false, Some meta) first)
    by (vm_compute; reflexivity).
  assert (H2 : FrameReader.next
                 (ChannelDemuxer.codec (ChannelDemuxer.mk first {[ 3 := [xaa; xbb] ]})) =
               Returns ([xcc], true, Some meta) last)
    by (vm_compute; reflexivity).
  split.
  - destruct (demuxer_next_buffers _ _ _ _ _ H1) as (_ & _ & Hmore).
    rewrite (Hmore Hplain eq_refl). reflexivity.
  - destruct (demuxer_next_buffers _ _ _ _ _ H2) as (_ & Hdone & _).
    rewrite (Hdone Hplain eq_refl). vm_compute. reflexivity.
Defined.

(** C7: for a message [(data, meta)] that the demuxer emits, the decoder
    asks the factory for the stream of [meta.streamId], adds
    [meta.timestamp] to that stream's timestamp and calls the dispatcher
    once, with that stream, [meta.datatype], the new timestamp and the
    data; the other streams keep their timestamps. *)
Theorem decoder_next_dispatches (d : Decoder.t) (data : str)
    (meta : header.Absolute) (dm' : ChannelDemuxer.t) :
  ChannelDemuxer.next (Decoder.demuxer d) = Returns (Some (data, meta)) dm' ->
  let stream := header.streamId meta in
  let before := Decoder.stream_timestamp (Decoder.stream_factory d) stream in
  exists d',
    Decoder.next d = Returns tt d'
    /\ Decoder.demuxer d' = dm'
    /\ Decoder.resolved (Decoder.stream_factory d') =
         Decoder.resolved (Decoder.stream_factory d) ++ [stream]
    /\ Decoder.stream_timestamp (Decoder.stream_factory d') stream =
         before + header.timestamp meta
    /\ (forall other, other <> stream ->
          Decoder.stream_timestamp (Decoder.stream_factory d') other =
          Decoder.stream_timestamp (Decoder.stream_factory d) other)
    /\ Decoder.dispatcher d' =
         Decoder.dispatcher d
         ++ [(stream, header.datatype meta, before + header.timestamp meta, data)].
Proof.
  intros Hmessage stream before.
  unfold Decoder.next. unfold_py. rewrite Hmessage. cbn.
  eexists. split; [reflexivity|]. cbn.
  repeat split.
  - unfold Decoder.stream_timestamp. cbn. now rewrite lookup_insert_eq.
  - intros other Hother. unfold Decoder.stream_timestamp. cbn.
    now rewrite lookup_insert_ne.
Qed.

Lemma decoder_next_dispatches_witness :
  let wire := [x03; x00; x00; x05; x00; x00; x02; x14; x01; x00; x00; x00; xaa; xbb] in
  let d := Decoder.__init__ [] (Decoder.mkFactory {[ 1 := 10 ]} [])
                            (Some (BufferedByteStream.mk wire 0)) in
  exists d',
    Decoder.next d = Returns tt d'
    /\ Decoder.resolved (Decoder.stream_factory d') = [1]
    /\ Decoder.stream_timestamp (Decoder.stream_factory d') 1 = 15
    /\ Decoder.dispatcher d' = [(1, 20, 15, [xaa; xbb])].
Proof.
  intros wire d.
  assert (Hmessage :
            ChannelDemuxer.next (Decoder.demuxer d) =
            Returns (Some ([xaa; xbb], header.mkAbsolute 3 5 20 2 1))
                    (ChannelDemuxer.mk
                       (Codec.mk (BufferedByteStream.mk wire 14)
                                 {[ 3 := Channel.mk 3 (Some (header.mkAbsolute 3 5 20 2 1))
                                                    128 0 None 128 ]} 128)
                       ∅))
    by (vm_compute; reflexivity).
  destruct (decoder_next_dispatches _ _ _ _ Hmessage)
    as (d' & Hnext & _ & Hresolved & Hstamp & _ & Hcalls).
  exists d'. exact (conj Hnext (conj Hresolved (conj Hstamp Hcalls))).
Defined.

(** C10: when the demuxer read a frame and yields no message, the decoder
    returns without a call of the dispatcher or of the stream factory, no
    stream timestamp moves, and the accumulators of the channel ids other
    than the frame's are as before. *)
Theorem decoder_next_without_message (d : Decoder.t) (data : str) (complete : bool)
    (meta : header.Absolute) (c' : Codec.t) (dm' : ChannelDemuxer.t) :
  FrameReader.next (ChannelDemuxer.codec (Decoder.demuxer d)) =
    Returns (data, complete, Some meta) c' ->
  ChannelDemuxer.next (Decoder.demuxer d) = Returns None dm' ->
  Decoder.next d =
    Returns tt (Decoder.mk dm' (Decoder.dispatcher d) (Decoder.stream_factory d))
  /\ complete = false
  /\ (header.datatype meta ∉ message.STREAMABLE_TYPES)
  /\ (forall channelId, channelId <> header.channelId meta ->
        ChannelDemuxer.bucket dm' !! channelId =
        ChannelDemuxer.bucket (Decoder.demuxer d) !! channelId).
Proof.
  intros Hframe Hnone. split.
  - unfold Decoder.next. unfold_py. now rewrite Hnone.
  - revert Hnone. unfold ChannelDemuxer.next. unfold_py. rewrite Hframe.
    cbn [ChannelDemuxer.bucket].
    destruct (bool_decide (header.datatype meta ∈ message.STREAMABLE_TYPES)) eqn:E;
      [discriminate|].
    destruct complete; [discriminate|].
    intros [= <-]. apply bool_decide_eq_false_1 in E.
    repeat split; [assumption|].
    intros channelId Hother. cbn. now rewrite lookup_insert_ne.
Qed.

Lemma decoder_next_without_message_witness :
  let wire := [x03; x00; x00; x00; x00; x00; x03; x14; x01; x00; x00; x00;
               xaa; xbb; xc3; xcc] in
  let meta := header.mkAbsolute 3 0 20 3 1 in
  let first := Codec.mk (BufferedByteStream.mk wire 14)
                        {[ 3 := Channel.mk 3 (Some meta) 2 2 (Some 1) 2 ]} 2 in
  let d := Decoder.mk
             (ChannelDemuxer.mk
                (Codec.setFrameSize 2
                   (Codec.__init__ (Some (BufferedByteStream.mk wire 0))))
                {[ 4 := [x01] ]})
             [] (Decoder.mkFactory {[ 1 := 10 ]} []) in
  Decoder.next d =
    Returns tt (Decoder.mk (ChannelDemuxer.mk first {[ 3 := [xaa; xbb]; 4 := [x01] ]})
                           [] (Decoder.mkFactory {[ 1 := 10 ]} [])).
Proof.
  intros wire meta first d.
  assert (Hframe : FrameReader.next (ChannelDemuxer.codec (Decoder.demuxer d)) =
                   Returns ([xaa; xbb], false, Some meta) first)
    by (vm_compute; reflexivity).
  assert (Hnone : ChannelDemuxer.next (Decoder.demuxer d) =
                  Returns None
                          (ChannelDemuxer.mk first {[ 3 := [xaa; xbb]; 4 := [x01] ]}))
    by (vm_compute; reflexivity).
  exact (proj1 (decoder_next_without_message _ _ _ _ _ _ Hframe Hnone)).
Defined.

(** Scenario S1: one message of 50 bytes on channel 3 is read in one step
    and dispatched once, with timestamp 0. *)
Lemma single_small_message :
  let wire := [x03; x00; x00; x00; x00; x00; x32; x14; x01; x00; x00; x00]
              ++ repeat x00 50 in
  let d := Decoder.__init__ [] (Decoder.mkFactory ∅ [])
                            (Some (BufferedByteStream.mk wire 0)) in
  Decoder.dispatcher (state_after (Decoder.next d) d) = [(1, 20, 0, repeat x00 50)].
Proof. vm_compute. reflexivity. Qed.

(** ** Changing the frame size *)

(** The countdown after [_adjustFrameRemaining], for any length and any
    positive frame size. *)
Lemma adjustFrameRemaining_returns (c : Channel.t) (l : Z) :
  0 <= l -> 0 < Channel.frameSize c ->
  Channel._adjustFrameRemaining l c =
    Returns tt
      (Channel.mk (Channel.channelId c) (Channel.header c) (Channel.frameSize c)
                  (Channel.bytes c) (Channel.bodyRemaining c)
                  (let m := l mod Channel.frameSize c in
                   if m >=? Channel.frameRemaining c
                   then Channel.frameSize c - (m - Channel.frameRemaining c)
                   else Channel.frameRemaining c - m)).
Proof.
  intros Hl Hsize. unfold Channel._adjustFrameRemaining.
  rewrite (drop_frames_terminates (Channel.frameSize c)) by zlia.
  cbv zeta. destruct (_ >=? _); reflexivity.
Qed.

(** With a frame size of zero or less [_adjustFrameRemaining] never
    returns for a length that is not below it. *)
Lemma adjustFrameRemaining_diverges (c : Channel.t) (l : Z) :
  Channel.frameSize c <= 0 -> Channel.frameSize c <= l ->
  Channel._adjustFrameRemaining l c = Diverges.
Proof.
  intros Hsize Hl. unfold Channel._adjustFrameRemaining.
  now rewrite drop_frames_diverges.
Qed.

(** One frame of a channel whose frame size [n] does not exceed its
    countdown: the frame is min(n, bodyRemaining) long, the countdown stays
    unless the message ends. *)
Lemma readFrame_capped (c : Channel.t) (st : BufferedByteStream.t) (n r : Z) :
  Channel.frameSize c = n -> 0 < n <= Channel.frameRemaining c ->
  Channel.bodyRemaining c = Some r -> 0 <= r ->
  let l := Z.min n r in
  (Z.to_nat l <= BufferedByteStream.remaining st)%nat ->
  Channel.readFrame (c, st) =
    Returns (take (Z.to_nat l)
                  (drop (BufferedByteStream.position st) (BufferedByteStream.data st)))
            (Channel.mk (Channel.channelId c) (Channel.header c) n
                        (Channel.bytes c + l) (Some (r - l))
                        (if n <=? r then Channel.frameRemaining c
                         else Channel.frameRemaining c - r),
             BufferedByteStream.mk (BufferedByteStream.data st)
                                   (BufferedByteStream.position st + Z.to_nat l)).
Proof.
  intros Hsize Hn Hb Hr l Henough.
  unfold Channel.readFrame. cbn [fst snd]. rewrite Hb, Hsize.
  replace (Z.min (Channel.frameRemaining c) (Z.min n r)) with l by (unfold l; lia).
  unfold_py. cbn [fst snd]. rewrite read_enough by (unfold l; lia). cbn [fst snd].
  rewrite adjustFrameRemaining_returns by (cbn; unfold l; lia).
  cbn [fst snd Channel.advance Channel.channelId Channel.header Channel.frameSize
       Channel.bytes Channel.bodyRemaining Channel.frameRemaining option_map].
  rewrite Hb, Hsize. cbv zeta. cbn [option_map]. do 3 f_equal.
  assert (Hl : l = Z.min n r) by reflexivity.
  clearbody l. destruct (n <=? r) eqn:E.
  - assert (l = n) as -> by zlia. rewrite Z.mod_same by lia.
    destruct (0 >=? Channel.frameRemaining c) eqn:E'; zlia.
  - assert (l = r) as -> by zlia. rewrite Z.mod_small by zlia.
    destruct (r >=? Channel.frameRemaining c) eqn:E'; zlia.
Qed.

(** As long as the body holds [k] more frames of [n] bytes, the next [k]
    frames are [n] bytes each and the countdown does not move. *)
Lemma read_frames_capped (n : Z) :
  0 < n ->
  forall (k : nat) (c : Channel.t) (st : BufferedByteStream.t) (r : Z),
    Channel.frameSize c = n -> n <= Channel.frameRemaining c ->
    Channel.bodyRemaining c = Some r -> Z.of_nat k * n <= r ->
    (k * Z.to_nat n <= BufferedByteStream.remaining st)%nat ->
    exists frames,
      read_frames k (c, st) =
        Returns frames
          (Channel.mk (Channel.channelId c) (Channel.header c) n
                      (Channel.bytes c + Z.of_nat k * n) (Some (r - Z.of_nat k * n))
                      (Channel.frameRemaining c),
           BufferedByteStream.mk (BufferedByteStream.data st)
                                 (BufferedByteStream.position st + k * Z.to_nat n))
      /\ length frames = k
      /\ Forall (fun data => Z.of_nat (length data) = n) frames.
Proof.
  intros Hn. induction k as [|k IH]; intros c st r Hsize Hfr Hb Hbody Henough.
  - exists []. cbn [read_frames]. unfold ret.
    replace (Channel.bytes c + Z.of_nat 0 * n) with (Channel.bytes c) by lia.
    replace (r - Z.of_nat 0 * n) with r by lia.
    replace (BufferedByteStream.position st + 0 * Z.to_nat n)%nat
      with (BufferedByteStream.position st) by lia.
    rewrite <- Hsize, <- Hb.
    destruct c, st. repeat split. constructor.
  - cbn [read_frames]. unfold bind at 1.
    assert (Hbody' : n + Z.of_nat k * n <= r) by lia.
    assert (Henough' : (Z.to_nat n + k * Z.to_nat n
                        <= BufferedByteStream.remaining st)%nat)
      by (cbn in Henough; lia).
    assert (Hk : 0 <= Z.of_nat k * n) by (apply Z.mul_nonneg_nonneg; lia).
    assert (Hmin : Z.min n r = n) by lia.
    rewrite (readFrame_capped c st n r) by (try rewrite Hmin; first [assumption | lia]).
    rewrite Hmin. destruct (n <=? r) eqn:E; [|zlia].
    set (c1 := Channel.mk _ _ _ _ _ _). set (st1 := BufferedByteStream.mk _ _).
    destruct (IH c1 st1 (r - n)) as (frames & Hrun & Hlen & Hall);
      try reflexivity; try assumption.
    + lia.
    + unfold st1, BufferedByteStream.remaining in *. cbn. lia.
    + unfold bind. rewrite Hrun. unfold ret.
      eexists. split; [|split].
      * unfold c1, st1. cbn -[Z.mul Z.of_nat Nat.mul].
        replace (Channel.bytes c + n + Z.of_nat k * n)
          with (Channel.bytes c + Z.of_nat (S k) * n) by lia.
        replace (r - n - Z.of_nat k * n) with (r - Z.of_nat (S k) * n) by lia.
        replace (BufferedByteStream.position st + Z.to_nat n + k * Z.to_nat n)%nat
          with (BufferedByteStream.position st + S k * Z.to_nat n)%nat by lia.
        reflexivity.
      * cbn. now rewrite Hlen.
      * constructor; [|exact Hall].
        rewrite length_take, length_drop.
        unfold BufferedByteStream.remaining in Henough'. lia.
Qed.

(** One frame of a channel whose countdown is below its frame size, as it
    is at a frame boundary once the frame size has been raised: the frame
    is as long as the old countdown, and the countdown restarts at the new
    size. *)
Lemma readFrame_finishes_countdown (c : Channel.t) (st : BufferedByteStream.t)
    (n r : Z) :
  Channel.frameSize c = n -> 0 < Channel.frameRemaining c < n ->
  Channel.bodyRemaining c = Some r -> Channel.frameRemaining c <= r ->
  let l := Channel.frameRemaining c in
  (Z.to_nat l <= BufferedByteStream.remaining st)%nat ->
  Channel.readFrame (c, st) =
    Returns (take (Z.to_nat l)
                  (drop (BufferedByteStream.position st) (BufferedByteStream.data st)))
            (Channel.mk (Channel.channelId c) (Channel.header c) n
                        (Channel.bytes c + l) (Some (r - l)) n,
             BufferedByteStream.mk (BufferedByteStream.data st)
                                   (BufferedByteStream.position st + Z.to_nat l)).
Proof.
  intros Hsize Hfr Hb Hr l Henough.
  unfold Channel.readFrame. cbn [fst snd]. rewrite Hb, Hsize.
  replace (Z.min (Channel.frameRemaining c) (Z.min n r)) with l by (unfold l; lia).
  unfold_py. cbn [fst snd]. rewrite read_enough by (unfold l; lia). cbn [fst snd].
  rewrite adjustFrameRemaining_returns by (cbn; unfold l; lia).
  cbn [fst snd Channel.advance Channel.channelId Channel.header Channel.frameSize
       Channel.bytes Channel.bodyRemaining Channel.frameRemaining option_map].
  rewrite Hb, Hsize. cbv zeta. cbn [option_map]. do 3 f_equal.
  unfold l. rewrite Z.mod_small by lia.
  destruct (_ >=? _) eqn:E; zlia.
Qed.

(** Scenario S6: a message of 500 bytes starts at the frame size 128; after
    its first frame of 128 bytes the frame size is set to 64, and the
    frames that follow are 64, 64, 64, 64, 64 and 52 bytes, the last one
    completing the message. *)
Lemma frame_size_reduced_mid_message :
  let wire := [x03; x00; x00; x00; x00; x01; xf4; x14; x01; x00; x00; x00]
              ++ repeat x00 128 ++ concat (repeat (xc3 :: repeat x00 64) 5)
              ++ xc3 :: repeat x00 52 in
  let s := Codec.__init__ (Some (BufferedByteStream.mk wire 0)) in
  exists s',
    (first <- next_frames 1 ;;
     modify (Codec.setFrameSize 64) ;;;
     rest <- next_frames 6 ;;
     ret (first ++ rest)) s
    = Returns [(128, false); (64, false); (64, false); (64, false); (64, false);
               (64, false); (52, true)]%nat s'
    /\ BufferedByteStream.at_eof (Codec.stream s') = true.
Proof.
  eexists (Codec.mk (BufferedByteStream.mk _ 518)
                    {[ 3 := Channel.mk 3 (Some (header.mkAbsolute 3 0 20 500 1))
                                       64 0 None 64 ]} 64).
  split; vm_compute; reflexivity.
Qed.

(** The same message when the frame size is raised to 256 after the first
    frame: the channel still reads one frame of 128 bytes, its countdown,
    before it reads the 244 bytes that are left in one frame. *)
Lemma frame_size_raised_mid_message :
  let wire := [x03; x00; x00; x00; x00; x01; xf4; x14; x01; x00; x00; x00]
              ++ repeat x00 128 ++ [xc3] ++ repeat x00 128 ++ [xc3] ++ repeat x00 244 in
  let s := Codec.__init__ (Some (BufferedByteStream.mk wire 0)) in
  exists s',
    (first <- next_frames 1 ;;
     modify (Codec.setFrameSize 256) ;;;
     rest <- next_frames 2 ;;
     ret (first ++ rest)) s
    = Returns [(128, false); (128, false); (244, true)]%nat s'
    /\ BufferedByteStream.at_eof (Codec.stream s') = true.
Proof.
  eexists (Codec.mk (BufferedByteStream.mk _ 514)
                    {[ 3 := Channel.mk 3 (Some (header.mkAbsolute 3 0 20 500 1))
                                       256 0 None 256 ]} 256).
  split; vm_compute; reflexivity.
Qed.

(** C6, where the code departs from it: a message of 500 bytes starts on
    channel 3 at the frame size 128 and its first frame of 128 bytes is
    read, which leaves the channel at a frame boundary.  The frame size is
    then set to 256 and the peer sends the next chunk with 256 bytes.
    [setFrameSize] has overwritten [frameSize] and left the countdown
    [frameRemaining] at 128, and [readFrame] takes the minimum of the two:
    the next frame is 128 bytes long, not 256.  The reader stands in the
    middle of the chunk of the peer (at byte 269 of the stream, the next
    chunk header is at byte 397), and the step after takes body bytes for a
    header. *)
Theorem setFrameSize_raised_reads_old_frame :
  let h := header.mkAbsolute 3 0 20 500 1 in
  let wire := [x03; x00; x00; x00; x00; x01; xf4; x14; x01; x00; x00; x00]
              ++ repeat xaa 128 ++ [xc3] ++ repeat xbb 256 ++ [xc3] ++ repeat xcc 116 in
  let s := Codec.__init__ (Some (BufferedByteStream.mk wire 0)) in
  let boundary := Channel.mk 3 (Some h) 128 128 (Some 372) 128 in
  exists s1 s2 s3,
    FrameReader.next s = Returns (repeat xaa 128, false, Some h) s1
    /\ Codec.channels s1 !! 3 = Some boundary
    /\ Channel.frameRemaining boundary = Channel.frameSize boundary
    /\ Codec.channels (Codec.setFrameSize 256 s1) !! 3
       = Some (Codec.with_frameSize 256 boundary)
    /\ Channel.frameRemaining (Codec.with_frameSize 256 boundary) = 128
    /\ FrameReader.next (Codec.setFrameSize 256 s1)
       = Returns (repeat xbb 128, false, Some h) s2
    /\ Z.of_nat (length (repeat xbb 128)) <> Z.min 256 372
    /\ BufferedByteStream.position (Codec.stream s2) = 269%nat
    /\ FrameReader.next s2 = Raises HeaderError s3.
Proof.
  intros h wire s boundary.
  eexists (Codec.mk (BufferedByteStream.mk wire 140) {[ 3 := boundary ]} 128),
          (Codec.mk (BufferedByteStream.mk wire 269)
                    {[ 3 := Channel.mk 3 (Some h) 256 256 (Some 244) 256 ]} 256),
          _.
  split; [vm_compute; reflexivity|].
  split; [vm_compute; reflexivity|].
  split; [reflexivity|].
  split; [vm_compute; reflexivity|].
  split; [reflexivity|].
  split; [vm_compute; reflexivity|].
  split; [vm_compute; discriminate|].
  split; [reflexivity|].
  vm_compute. reflexivity.
Qed.

(** ** The pump of the muxer *)

(** Whatever [releaseChannel] does, the list of active channels does not
    grow; when it raises, the list, the pool and the count are as before. *)
Lemma releaseChannel_never_grows (channelId : Z) (s : ChannelMuxer.t) :
  match ChannelMuxer.releaseChannel channelId s with
  | Returns _ s' =>
      S (length (ChannelMuxer.activeChannels s')) = length (ChannelMuxer.activeChannels s)
  | Raises _ s' =>
      ChannelMuxer.activeChannels s' = ChannelMuxer.activeChannels s
      /\ ChannelMuxer.availableChannels s' = ChannelMuxer.availableChannels s
      /\ ChannelMuxer.channelsInUse s' = ChannelMuxer.channelsInUse s
  | Diverges => True
  end.
Proof.
  unfold ChannelMuxer.releaseChannel. unfold_py. py_simpl.
  destruct (Codec.getChannel channelId (ChannelMuxer.codec s)) as [c cs|e cs|];
    py_simpl; [|auto|exact I].
  destruct (ChannelMuxer.activeChannelsIndex s !! channelId) as [idx|];
    py_simpl; [|auto].
  destruct (idx <? length (ChannelMuxer.activeChannels s))%nat eqn:Hlt; py_simpl; [|auto].
  apply Nat.ltb_lt in Hlt.
  rewrite length_delete by (apply lookup_lt_is_Some; exact Hlt). lia.
Qed.

(** The body of the loop never gets past its first call. *)
Lemma visit_raises (ref : Z) (s : ChannelMuxer.t) :
  ChannelMuxer.visit ref s = Raises AttributeError s.
Proof.
  unfold ChannelMuxer.visit.
  destruct (Codec.channels (ChannelMuxer.codec s) !! ref) as [channel|]; reflexivity.
Qed.

Lemma visit_never_grows (ref : Z) (s : ChannelMuxer.t) :
  match ChannelMuxer.visit ref s with
  | Returns _ s' | Raises _ s' =>
      (length (ChannelMuxer.activeChannels s') <= length (ChannelMuxer.activeChannels s))%nat
  | Diverges => True
  end.
Proof. rewrite visit_raises. reflexivity. Qed.

(** The loop of [next] has fuel enough: one step more than the list is
    long lets it run to its end, and more fuel changes nothing. *)
Lemma for_active_fuel (fuel : nat) :
  forall (i : nat) (s : ChannelMuxer.t),
    (length (ChannelMuxer.activeChannels s) <= fuel + i)%nat ->
    ChannelMuxer.for_active (S (S fuel)) i s = ChannelMuxer.for_active (S fuel) i s.
Proof.
  induction fuel as [|fuel IH]; intros i s Hlen.
  - cbn [ChannelMuxer.for_active].
    destruct (ChannelMuxer.activeChannels s !! i) as [ref|] eqn:Hi; [|reflexivity].
    apply lookup_lt_Some in Hi. lia.
  - change (ChannelMuxer.for_active (S (S (S fuel))) i s)
      with (match ChannelMuxer.activeChannels s !! i with
            | None => Returns tt s
            | Some ref =>
                (ChannelMuxer.visit ref ;;;
                 ChannelMuxer.for_active (S (S fuel)) (S i)) s
            end).
    change (ChannelMuxer.for_active (S (S fuel)) i s)
      with (match ChannelMuxer.activeChannels s !! i with
            | None => Returns tt s
            | Some ref =>
                (ChannelMuxer.visit ref ;;;
                 ChannelMuxer.for_active (S fuel) (S i)) s
            end).
    destruct (ChannelMuxer.activeChannels s !! i) as [ref|]; [|reflexivity].
    unfold bind. pose proof (visit_never_grows ref s) as Hvisit.
    destruct (ChannelMuxer.visit ref s) as [[] s'|e s'|]; try reflexivity.
    apply IH. lia.
Qed.

Lemma next_has_fuel (extra : nat) (s : ChannelMuxer.t) :
  ChannelMuxer.for_active (S (length (ChannelMuxer.activeChannels s) + extra)) 0 s
  = ChannelMuxer.next s.
Proof.
  unfold ChannelMuxer.next. induction extra as [|extra IH].
  - now rewrite Nat.add_0_r.
  - rewrite <- IH. replace (length (ChannelMuxer.activeChannels s) + S extra)%nat
      with (S (length (ChannelMuxer.activeChannels s) + extra)) by lia.
    apply for_active_fuel. lia.
Qed.

(** ** The encoder *)

(** [send] with a full pool: the message joins the end of [pending] and
    nothing else changes. *)
Lemma send_queues_when_full (e : Encoder.t) (data : str) (datatype streamId timestamp : Z) :
  ChannelMuxer.isFull (Encoder.muxer e) = true ->
  Encoder.send data datatype streamId timestamp e =
    Returns tt (Encoder.mk (Encoder.muxer e)
                           (Encoder.pending e ++ [(streamId, datatype, timestamp, data)])).
Proof. intros Hfull. unfold Encoder.send. now rewrite Hfull. Qed.

(** [send] with a free channel id at the head of the pool: the muxer takes
    that id, makes its channel active and sets on it the absolute header of
    the message; [pending] is not touched. *)
Lemma send_acquires_when_free (e : Encoder.t) (data : str)
    (datatype streamId timestamp : Z) (channelId : Z) (rest : list Z) :
  ChannelMuxer.isFull (Encoder.muxer e) = false ->
  ChannelMuxer.availableChannels (Encoder.muxer e) = channelId :: rest ->
  channelId <= MAX_CHANNELS ->
  exists channel codec',
    Codec.getChannel channelId (ChannelMuxer.codec (Encoder.muxer e))
      = Returns channel codec'
    /\ let h := header.mkAbsolute (Channel.channelId channel) timestamp datatype
                                  (Z.of_nat (length data)) streamId in
       let m := Encoder.muxer e in
       Encoder.send data datatype streamId timestamp e =
         Returns tt
           (Encoder.mk
              (ChannelMuxer.mk
                 (Codec.mk (Codec.stream codec')
                           (<[Channel.channelId channel := Channel.assign h channel]>
                              (Codec.channels codec'))
                           (Codec.frameSize codec'))
                 (ChannelMuxer._minChannelId m) (ChannelMuxer._maxChannels m) rest
                 (ChannelMuxer.activeChannels m ++ [channelId])
                 (<[channelId := (length (ChannelMuxer.activeChannels m ++ [channelId]) - 1)%nat]>
                    (ChannelMuxer.activeChannelsIndex m))
                 (ChannelMuxer.channelsInUse m + 1))
              (Encoder.pending e)).
Proof.
  intros Hfree Havail Hid.
  destruct (getChannel_returns (ChannelMuxer.codec (Encoder.muxer e)) channelId Hid)
    as (channel & codec' & Hget).
  exists channel, codec'. split; [exact Hget|].
  unfold Encoder.send. rewrite Hfree.
  unfold ChannelMuxer.send, ChannelMuxer.aquireChannel. unfold_py.
  rewrite Havail. cbn -[Nat.sub length]. rewrite Hget. reflexivity.
Qed.

(** Whenever the pump returns with the pool not full while messages wait,
    [Encoder.next] raises TypeError and the oldest entry is gone from
    [pending]; the muxer is as the pump left it. *)
Lemma next_loses_oldest_pending (e : Encoder.t) (m' : ChannelMuxer.t)
    (entry : Z * Z * Z * str) (rest : list (Z * Z * Z * str)) :
  ChannelMuxer.next (Encoder.muxer e) = Returns tt m' ->
  Encoder.pending e = entry :: rest ->
  ChannelMuxer.isFull m' = false ->
  Encoder.next e = Raises TypeError (Encoder.mk m' rest).
Proof.
  intros Hpump Hpending Hfree. unfold Encoder.next. unfold_py.
  rewrite Hpump. cbn. rewrite Hpending. unfold Encoder.drain. cbn.
  now rewrite Hfree.
Qed.

(** The same without any frame to write: no channel is active, a message
    waits and the pool is not full. *)
Lemma next_loses_pending_when_idle (e : Encoder.t)
    (entry : Z * Z * Z * str) (rest : list (Z * Z * Z * str)) :
  ChannelMuxer.activeChannels (Encoder.muxer e) = [] ->
  Encoder.pending e = entry :: rest ->
  ChannelMuxer.isFull (Encoder.muxer e) = false ->
  Encoder.next e = Raises TypeError (Encoder.mk (Encoder.muxer e) rest).
Proof.
  intros Hidle Hpending Hfree.
  apply next_loses_oldest_pending with (entry := entry); try assumption.
  unfold ChannelMuxer.next. rewrite Hidle. cbn [length ChannelMuxer.for_active].
  now rewrite Hidle.
Qed.

(** C9, where the code departs from it: the pool is full and the message
    for stream 7 waits in [pending].  The pump cannot write: [Encoder.next]
    raises AttributeError at the first active channel, no message
    completes, no channel is released and the entry keeps waiting.  When
    the channels are released by hand, so that the pump has nothing to
    write and the pool is free, [Encoder.next] takes the entry out of
    [pending] and the call that should send it raises TypeError: no channel
    becomes active for it and no channel carries its header. *)
Theorem pending_entry_is_dropped :
  send_all saturating (Encoder.__init__ None) = Returns tt saturated
  /\ ChannelMuxer.isFull (Encoder.muxer saturated) = true
  /\ Encoder.pending saturated = [(7, 20, 5, [x01])]
  /\ Encoder.next saturated = Raises AttributeError saturated
  /\ release_all (rev (seqZ 3 61)) saturated = Returns tt released
  /\ ChannelMuxer.activeChannels (Encoder.muxer released) = []
  /\ ChannelMuxer.isFull (Encoder.muxer released) = false
  /\ Encoder.pending released = [(7, 20, 5, [x01])]
  /\ Encoder.next released = Raises TypeError (Encoder.mk (Encoder.muxer released) [])
  /\ map_Forall (fun _ c => on_stream 7 c = false)
                (Codec.channels (ChannelMuxer.codec (Encoder.muxer released))).
Proof.
  split; [vm_compute; reflexivity|].
  split; [vm_compute; reflexivity|].
  split; [vm_compute; reflexivity|].
  split; [vm_compute; reflexivity|].
  split; [vm_compute; reflexivity|].
  split; [vm_compute; reflexivity|].
  split; [vm_compute; reflexivity|].
  split; [vm_compute; reflexivity|].
  split; [vm_compute; reflexivity|].
  intros channelId c Hc.
  apply elem_of_map_to_list, list_elem_of_In in Hc.
  assert (Hall : forallb (fun ic => negb (on_stream 7 (snd ic)))
                   (map_to_list
                      (Codec.channels (ChannelMuxer.codec (Encoder.muxer released))))
                 = true) by (vm_compute; reflexivity).
  rewrite forallb_forall in Hall. specialize (Hall _ Hc). cbn [snd] in Hall.
  now destruct (on_stream 7 c).
Qed.

(** * Further properties *)

(** ** More on the countdown and on reading frames *)

(** X1: for a positive frame size and a countdown within it,
    [_adjustFrameRemaining] returns for every length [l >= 0], also one of
    several frames: it touches the countdown only, the countdown stays
    within 0 < frameRemaining <= frameSize, and it has gone down by [l]
    modulo the frame size. *)
Theorem adjustFrameRemaining_keeps_countdown (c : Channel.t) (l : Z) :
  0 <= l -> 0 < Channel.frameRemaining c <= Channel.frameSize c ->
  exists remaining,
    Channel._adjustFrameRemaining l c =
      Returns tt (Channel.mk (Channel.channelId c) (Channel.header c)
                             (Channel.frameSize c) (Channel.bytes c)
                             (Channel.bodyRemaining c) remaining)
    /\ 0 < remaining <= Channel.frameSize c
    /\ (Channel.frameRemaining c - remaining) mod Channel.frameSize c
       = l mod Channel.frameSize c.
Proof.
  intros Hl Hfr. rewrite adjustFrameRemaining_returns by lia. cbv zeta.
  pose proof (Z.mod_pos_bound l (Channel.frameSize c) ltac:(lia)) as Hm.
  set (m := l mod Channel.frameSize c) in *.
  destruct (m >=? Channel.frameRemaining c) eqn:E.
  - eexists. split; [reflexivity|]. split; [lia|].
    replace (Channel.frameRemaining c
             - (Channel.frameSize c - (m - Channel.frameRemaining c)))
      with (m + (-1) * Channel.frameSize c) by lia.
    rewrite Z.mod_add by lia. unfold m. apply Z.mod_mod. lia.
  - eexists. split; [reflexivity|]. split; [lia|].
    replace (Channel.frameRemaining c - (Channel.frameRemaining c - m)) with m by lia.
    unfold m. apply Z.mod_mod. lia.
Qed.

Lemma adjustFrameRemaining_keeps_countdown_witness :
  let c := Channel.mk 3 None 128 0 None 100 in
  exists remaining,
    Channel._adjustFrameRemaining 300 c = Returns tt (Channel.mk 3 None 128 0 None remaining)
    /\ 0 < remaining <= 128
    /\ (100 - remaining) mod 128 = 300 mod 128.
Proof.
  intros c.
  destruct (adjustFrameRemaining_keeps_countdown c 300) as (remaining & H);
    [lia | cbn; lia |].
  exists remaining. exact H.
Defined.

(** X2: once the frame size is 0, [readFrame] never returns: on a channel
    whose counters are not negative it reads no byte and then loops for
    ever in the countdown loop. *)
Theorem readFrame_hangs_on_frame_size_zero (s : Codec.t) (channelId : Z)
    (c : Channel.t) (st : BufferedByteStream.t) (r : Z) :
  Codec.channels (Codec.setFrameSize 0 s) !! channelId = Some c ->
  Channel.bodyRemaining c = Some r -> 0 <= r -> 0 <= Channel.frameRemaining c ->
  Channel.readFrame (c, st) = Diverges.
Proof.
  intros Hc Hb Hr Hfr.
  assert (Hsize : Channel.frameSize c = 0).
  { unfold Codec.setFrameSize in Hc. cbn in Hc. rewrite lookup_fmap in Hc.
    destruct (Codec.channels s !! channelId) as [c0|]; [|discriminate].
    injection Hc as <-. reflexivity. }
  unfold Channel.readFrame. cbn [fst snd]. rewrite Hb, Hsize.
  replace (Z.min (Channel.frameRemaining c) (Z.min 0 r)) with 0 by lia.
  unfold_py. cbn [fst snd]. unfold BufferedByteStream.read. cbn [Z.eqb Z.ltb Z.compare andb].
  cbn [fst snd]. rewrite adjustFrameRemaining_diverges; [reflexivity | cbn; lia | cbn; lia].
Qed.

Lemma readFrame_hangs_on_frame_size_zero_witness :
  let h := header.mkAbsolute 3 0 20 300 1 in
  let c := Channel.mk 3 (Some h) 128 0 (Some 300) 128 in
  let st := BufferedByteStream.mk (repeat x00 300) 0 in
  Channel.readFrame (Codec.with_frameSize 0 c, st) = Diverges.
Proof.
  intros h c st.
  apply (readFrame_hangs_on_frame_size_zero (Codec.mk st {[ 3 := c ]} 128) 3 _ st 300).
  - vm_compute. reflexivity.
  - reflexivity.
  - lia.
  - cbn. lia.
Defined.

Lemma frames_needed_zero (r n : Z) :
  0 < n -> 0 <= r -> frames_needed r n = 0%nat -> r = 0.
Proof.
  intros Hn Hr Hk. unfold frames_needed in Hk.
  destruct (Z.eq_dec r 0) as [|Hne]; [assumption|].
  assert (1 <= (r + n - 1) / n) by (apply Z.div_le_lower_bound; lia). lia.
Qed.

Lemma frames_needed_succ (r n : Z) (k : nat) :
  0 < n -> 0 <= r -> frames_needed r n = S k ->
  0 < r /\ (n <= r -> frames_needed (r - n) n = k) /\ (r < n -> k = 0%nat).
Proof.
  intros Hn Hr Hk. unfold frames_needed in *.
  assert (Hpos : 0 < r).
  { destruct (Z.eq_dec r 0) as [->|]; [|lia].
    rewrite Z.div_small in Hk by lia. discriminate. }
  split; [exact Hpos|]. split.
  - intros Hle. replace (r - n + n - 1) with (r + n - 1 + (-1) * n) by lia.
    rewrite Z.div_add by lia. lia.
  - intros Hlt. replace (r + n - 1) with (r - 1 + 1 * n) in Hk by lia.
    rewrite Z.div_add, Z.div_small in Hk by lia. cbn in Hk. lia.
Qed.

(** The frames of a whole body, read one after the other. *)
Lemma read_frames_whole_body (n : Z) :
  0 < n ->
  forall (k : nat) (c : Channel.t) (st : BufferedByteStream.t) (r : Z),
    Channel.frameSize c = n -> n <= Channel.frameRemaining c ->
    Channel.bodyRemaining c = Some r -> 0 <= r ->
    (Z.to_nat r <= BufferedByteStream.remaining st)%nat ->
    frames_needed r n = k ->
    exists frames c',
      read_frames k (c, st) =
        Returns frames
          (c', BufferedByteStream.mk (BufferedByteStream.data st)
                                     (BufferedByteStream.position st + Z.to_nat r))
      /\ concat frames =
           take (Z.to_nat r)
                (drop (BufferedByteStream.position st) (BufferedByteStream.data st))
      /\ Forall (fun data => 0 < Z.of_nat (length data) <= n) frames
      /\ Channel.complete c' = true
      /\ Channel.bytes c' = Channel.bytes c + r
      /\ Channel.header c' = Channel.header c.
Proof.
  intros Hn. induction k as [|k IH]; intros c st r Hsize Hfr Hb Hr Henough Hk.
  - apply frames_needed_zero in Hk; [|lia..]. subst r.
    exists [], c. cbn [read_frames]. unfold ret. cbn [Z.to_nat].
    rewrite Nat.add_0_r. destruct st as [data pos]. cbn.
    split; [reflexivity|]. split; [reflexivity|]. split; [constructor|].
    split; [unfold Channel.complete; now rewrite Hb|]. split; [lia | reflexivity].
  - destruct (frames_needed_succ r n k Hn Hr Hk) as (Hpos & Hmore & Hlast).
    cbn [read_frames]. unfold bind at 1.
    rewrite (readFrame_capped c st n r) by first [assumption | lia].
    destruct (n <=? r) eqn:E.
    + rewrite Z.min_l by lia.
      set (c1 := Channel.mk _ _ _ _ _ _). set (st1 := BufferedByteStream.mk _ _).
      assert (Hleft : (Z.to_nat (r - n) <= BufferedByteStream.remaining st1)%nat)
        by (unfold st1, BufferedByteStream.remaining in *; cbn; lia).
      assert (Hk' : frames_needed (r - n) n = k) by (apply Hmore; lia).
      destruct (IH c1 st1 (r - n) eq_refl Hfr eq_refl ltac:(lia) Hleft Hk')
        as (frames & c' & Hrun & Hcat & Hall & Hdone & Hbytes & Hhdr).
      unfold bind. rewrite Hrun. unfold ret.
      eexists _, c'. split; [|split; [|split; [|split; [|split]]]].
        -- unfold st1. cbn [BufferedByteStream.data BufferedByteStream.position].
           replace (BufferedByteStream.position st + Z.to_nat n + Z.to_nat (r - n))%nat
             with (BufferedByteStream.position st + Z.to_nat r)%nat by lia.
           reflexivity.
        -- cbn [concat]. rewrite Hcat. unfold st1.
           cbn [BufferedByteStream.data BufferedByteStream.position].
           rewrite <- drop_drop, take_take_drop. f_equal. lia.
        -- constructor; [|exact Hall].
           rewrite length_take, length_drop.
           unfold BufferedByteStream.remaining in Henough. lia.
        -- exact Hdone.
        -- rewrite Hbytes. unfold c1. cbn. lia.
        -- rewrite Hhdr. reflexivity.
    + rewrite Z.min_r by lia. rewrite (Hlast ltac:(lia)).
      cbn [read_frames]. unfold bind, ret.
      eexists _, _. split; [reflexivity|]. cbn [concat].
      split; [now rewrite app_nil_r|]. split.
      * constructor; [|constructor].
        rewrite length_take, length_drop.
        unfold BufferedByteStream.remaining in Henough. lia.
      * split; [unfold Channel.complete; cbn; lia|]. split; reflexivity.
Qed.

(** X4: a channel at the start of a frame, given the whole body in the
    stream, needs the ceiling of bodyRemaining / frameSize calls of
    [readFrame]; the frames are not empty and not longer than the frame
    size, put together they are exactly the next bodyRemaining bytes of the
    stream, and after them the channel is complete. *)
Theorem frames_reassemble_body (c : Channel.t) (st : BufferedByteStream.t) (r : Z) :
  0 < Channel.frameSize c -> Channel.frameRemaining c = Channel.frameSize c ->
  Channel.bodyRemaining c = Some r -> 0 <= r ->
  (Z.to_nat r <= BufferedByteStream.remaining st)%nat ->
  exists frames c',
    read_frames (frames_needed r (Channel.frameSize c)) (c, st) =
      Returns frames
        (c', BufferedByteStream.mk (BufferedByteStream.data st)
                                   (BufferedByteStream.position st + Z.to_nat r))
    /\ concat frames =
         take (Z.to_nat r)
              (drop (BufferedByteStream.position st) (BufferedByteStream.data st))
    /\ Forall (fun data => 0 < Z.of_nat (length data) <= Channel.frameSize c) frames
    /\ Channel.complete c' = true
    /\ Channel.bytes c' = Channel.bytes c + r.
Proof.
  intros Hn Hfr Hb Hr Henough.
  destruct (read_frames_whole_body (Channel.frameSize c) Hn
              (frames_needed r (Channel.frameSize c)) c st r)
    as (frames & c' & Hrun & Hcat & Hall & Hdone & Hbytes & _);
    try reflexivity; try assumption; try lia.
  exists frames, c'. exact (conj Hrun (conj Hcat (conj Hall (conj Hdone Hbytes)))).
Qed.

Lemma frames_reassemble_body_witness :
  let h := header.mkAbsolute 3 0 20 300 1 in
  let c := Channel.assign h (Channel.__init__ 3 FRAME_SIZE) in
  let st := BufferedByteStream.mk (repeat x01 300 ++ [x02]) 0 in
  frames_needed 300 128 = 3%nat
  /\ exists frames c',
       read_frames 3 (c, st) =
         Returns frames (c', BufferedByteStream.mk (repeat x01 300 ++ [x02]) 300)
       /\ concat frames = repeat x01 300
       /\ Channel.complete c' = true.
Proof.
  intros h c st. split; [reflexivity|].
  destruct (frames_reassemble_body c st 300) as (frames & c' & Hrun & Hcat & _ & Hdone & _).
  - unfold c, FRAME_SIZE. cbn. lia.
  - reflexivity.
  - reflexivity.
  - lia.
  - vm_compute. lia.
  - exists frames, c'. split; [exact Hrun|]. split; [|exact Hdone].
    rewrite Hcat. vm_compute. reflexivity.
Defined.

(** ** What a step of the frame reader leaves alone *)

Lemma keeps_data_ret {A} (a : A) : keeps_data (ret a).
Proof. intros st. reflexivity. Qed.

Lemma keeps_data_bind {A B} (m : M BufferedByteStream.t A)
    (k : A -> M BufferedByteStream.t B) :
  keeps_data m -> (forall a, keeps_data (k a)) -> keeps_data (bind m k).
Proof.
  intros Hm Hk st. unfold bind. specialize (Hm st).
  destruct (m st) as [a st1|e st1|]; [|assumption|exact I].
  specialize (Hk a st1). destruct (k a st1); congruence.
Qed.

Lemma keeps_data_read (l : Z) : keeps_data (BufferedByteStream.read l).
Proof.
  intros st. unfold BufferedByteStream.read.
  destruct (_ && _); [reflexivity|]. destruct (_ && _); [reflexivity|].
  destruct (l <? -1); [reflexivity|]. destruct (l <? 0); reflexivity.
Qed.

Lemma keeps_data_read_uint (n : nat) (little : bool) :
  keeps_data (header.read_uint n little).
Proof.
  apply keeps_data_bind; [apply keeps_data_read | intros; apply keeps_data_ret].
Qed.

Lemma keeps_data_extended (ts : Z) : keeps_data (header.extended ts).
Proof.
  unfold header.extended. destruct (ts =? 16777215);
    [apply keeps_data_read_uint | apply keeps_data_ret].
Qed.

Lemma keeps_data_decodeHeader : keeps_data header.decodeHeader.
Proof.
  unfold header.decodeHeader.
  repeat first
    [ apply keeps_data_read_uint | apply keeps_data_extended | apply keeps_data_ret
    | apply keeps_data_bind; [|intros ?]
    | match goal with |- keeps_data (if ?b then _ else _) => destruct b end ].
Qed.

Lemma steady_ret {A} (a : A) : steady (ret a).
Proof. intros s. cbn. auto. Qed.

Lemma steady_bind {A B} (m : M (Channel.t * BufferedByteStream.t) A)
    (k : A -> M (Channel.t * BufferedByteStream.t) B) :
  steady m -> (forall a, steady (k a)) -> steady (bind m k).
Proof.
  intros Hm Hk s. unfold bind. specialize (Hm s).
  destruct (m s) as [a s1|e s1|]; [|assumption|exact I].
  specialize (Hk a s1). destruct (k a s1); intuition congruence.
Qed.

Lemma steady_get : steady (Channel.in_channel get).
Proof. intros [c st]. cbn. auto. Qed.

Lemma steady_reset : steady (Channel.in_channel (modify Channel.reset)).
Proof. intros [c st]. cbn. auto. Qed.

Lemma steady_setHeader (h : header.Header) :
  steady (Channel.in_channel (Channel.setHeader h)).
Proof.
  intros [c st]. unfold Channel.in_channel, zoom. cbn [fst snd].
  destruct h as [a|r]; cbn; [auto|]. destruct (Channel.header c); cbn; auto.
Qed.

Lemma steady_readFrame : steady Channel.readFrame.
Proof.
  intros [c st]. unfold Channel.readFrame. cbn [fst snd].
  destruct (Channel.bodyRemaining c) as [r|]; [|cbn; auto].
  unfold_py. cbn [fst snd].
  pose proof (keeps_data_read (Z.min (Channel.frameRemaining c)
                                     (Z.min (Channel.frameSize c) r)) st) as Hread.
  destruct (BufferedByteStream.read _ st) as [d st1|e st1|]; cbn [fst snd]; [|auto|exact I].
  unfold Channel._adjustFrameRemaining.
  destruct (Channel.drop_frames _ _ _) as [l|]; [|exact I].
  destruct (l >=? _); cbn; auto.
Qed.

(** The body of the try block of [FrameReader.next], on the channel. *)
Lemma steady_frame (h : header.Header) :
  steady (Channel.in_channel (Channel.setHeader h) ;;;
          bytes <- Channel.readFrame ;;
          c <- Channel.in_channel get ;;
          (if Channel.complete c then Channel.in_channel (modify Channel.reset)
           else ret tt) ;;;
          c <- Channel.in_channel get ;;
          ret (bytes, Channel.complete c, Channel.header c)).
Proof.
  apply steady_bind; [apply steady_setHeader | intros _].
  apply steady_bind; [apply steady_readFrame | intros bytes].
  apply steady_bind; [apply steady_get | intros c].
  apply steady_bind;
    [destruct (Channel.complete c); [apply steady_reset | apply steady_ret] | intros _].
  apply steady_bind; [apply steady_get | intros c']. apply steady_ret.
Qed.

(** What [getChannel] leaves, whether it returns or raises. *)
Lemma getChannel_footprint (channelId : Z) (s : Codec.t) :
  match Codec.getChannel channelId s with
  | Returns c s' =>
      Codec.stream s' = Codec.stream s /\ Codec.frameSize s' = Codec.frameSize s
      /\ Codec.channels s' = <[channelId := c]> (Codec.channels s)
      /\ match Codec.channels s !! channelId with
         | Some c0 => c = c0
         | None => c = Channel.__init__ channelId (Codec.frameSize s)
                   /\ channelId <= MAX_CHANNELS
         end
  | Raises e s' => s' = s /\ e = IndexError /\ Codec.channels s !! channelId = None
                   /\ MAX_CHANNELS < channelId
  | Diverges => False
  end.
Proof.
  unfold Codec.getChannel.
  destruct (Codec.channels s !! channelId) as [c0|] eqn:Hc.
  - repeat split. cbn. symmetry. now apply insert_id.
  - destruct (channelId >? MAX_CHANNELS) eqn:E; cbn; repeat split; lia.
Qed.

(** What the try block of [FrameReader.next] leaves, whatever its outcome:
    the bytes of the buffer, the frame size, and every channel but the one
    the header names, whose id and frame size stay too. *)
Lemma read_footprint (s : Codec.t) :
  match FrameReader.read s with
  | Returns _ s' | Raises _ s' =>
      BufferedByteStream.data (Codec.stream s') = BufferedByteStream.data (Codec.stream s)
      /\ Codec.frameSize s' = Codec.frameSize s
      /\ match FrameReader.readHeader s with
         | Returns h _ =>
             (forall k, k <> header.id h ->
                        Codec.channels s' !! k = Codec.channels s !! k)
             /\ match Codec.channels s' !! header.id h with
                | Some c' =>
                    Channel.channelId c' =
                      match Codec.channels s !! header.id h with
                      | Some c0 => Channel.channelId c0
                      | None => header.id h
                      end
                    /\ Channel.frameSize c' =
                      match Codec.channels s !! header.id h with
                      | Some c0 => Channel.frameSize c0
                      | None => Codec.frameSize s
                      end
                | None => Codec.channels s !! header.id h = None
                end
         | _ => Codec.channels s' = Codec.channels s
         end
  | Diverges => True
  end.
Proof.
  unfold FrameReader.read, FrameReader.readHeader, FrameReader.in_stream.
  unfold zoom. unfold bind at 1.
  pose proof (keeps_data_decodeHeader (Codec.stream s)) as Hdata.
  destruct (header.decodeHeader (Codec.stream s)) as [h st1|e st1|]; [|cbn; auto|exact I].
  unfold bind at 1.
  set (s1 := Codec.mk st1 (Codec.channels s) (Codec.frameSize s)).
  pose proof (getChannel_footprint (header.id h) s1) as Hget.
  destruct (Codec.getChannel (header.id h) s1) as [channel s2|e s2|]; [| |contradiction].
  - destruct Hget as (Hst & Hfs & Hch & Hc).
    unfold Codec.on_channel, zoom.
    match goal with
    | |- context [match ?body (channel, Codec.stream s2) with _ => _ end] =>
        pose proof (steady_frame h (channel, Codec.stream s2)) as Hbody;
        change (match body (channel, Codec.stream s2) with
                | Returns _ s' | Raises _ s' =>
                    Channel.channelId (fst s') = Channel.channelId channel
                    /\ Channel.frameSize (fst s') = Channel.frameSize channel
                    /\ BufferedByteStream.data (snd s')
                       = BufferedByteStream.data (Codec.stream s2)
                | Diverges => True
                end) in Hbody;
        destruct (body (channel, Codec.stream s2)) as [res [c' st']|e [c' st']|]
    end; [| |exact I].
    all: cbn [fst snd] in Hbody; destruct Hbody as (Hid & Hsize & Hd).
    all: cbn [fst snd Codec.stream Codec.channels Codec.frameSize].
    all: rewrite Hst in Hd; rewrite Hch.
    all: split; [rewrite Hd; exact Hdata|]; split; [exact Hfs|]; split;
      [intros k Hk; rewrite !lookup_insert_ne by congruence; reflexivity|].
    all: rewrite lookup_insert_eq; rewrite Hid, Hsize.
    all: change (Codec.channels s1) with (Codec.channels s) in Hc.
    all: destruct (Codec.channels s !! header.id h) as [c0|];
      [subst channel; auto | destruct Hc as (-> & _); auto].
  - destruct Hget as (-> & _ & Hnone & _). cbn.
    split; [exact Hdata|]. split; [reflexivity|]. split; [auto|].
    change (Codec.channels s1) with (Codec.channels s) in Hnone.
    now rewrite Hnone.
Qed.

Lemma raises_only_ret {S A} (allowed : Exception -> Prop) (a : A) :
  raises_only allowed (ret a : M S A).
Proof. intros s. exact I. Qed.

Lemma raises_only_bind {S A B} (allowed : Exception -> Prop) (m : M S A)
    (k : A -> M S B) :
  raises_only allowed m -> (forall a, raises_only allowed (k a)) ->
  raises_only allowed (bind m k).
Proof.
  intros Hm Hk s. unfold bind. specialize (Hm s).
  destruct (m s) as [a s1|e s1|]; [|assumption|exact I].
  apply (Hk a s1).
Qed.

Lemma read_raises_IOError (l : Z) :
  raises_only (fun e => e = IOError) (BufferedByteStream.read l).
Proof.
  intros st. unfold BufferedByteStream.read.
  destruct (_ && _); [reflexivity|]. destruct (_ && _); [reflexivity|].
  destruct (l <? -1); [reflexivity|]. destruct (l <? 0); exact I.
Qed.

Lemma decodeHeader_raises_IOError :
  raises_only (fun e => e = IOError) header.decodeHeader.
Proof.
  unfold header.decodeHeader, header.extended, header.read_uint.
  repeat first
    [ apply read_raises_IOError | apply raises_only_ret
    | apply raises_only_bind; [|intros ?]
    | match goal with |- raises_only _ (if ?b then _ else _) => destruct b end ].
Qed.

Lemma readHeader_raises (s s' : Codec.t) (e : Exception) :
  FrameReader.readHeader s = Raises e s' -> e = IOError.
Proof.
  unfold FrameReader.readHeader, FrameReader.in_stream, zoom.
  pose proof (decodeHeader_raises_IOError (Codec.stream s)) as Hdec.
  destruct (header.decodeHeader (Codec.stream s)); [discriminate| |discriminate].
  now intros [= <- _].
Qed.

(** The try block raises IOError (not enough bytes), or, with the header
    consumed, IndexError (no such channel) or HeaderError (relative header
    without a prior one), and nothing else. *)
Lemma read_raises (s s' : Codec.t) (e : Exception) :
  FrameReader.read s = Raises e s' ->
  e = IOError
  \/ exists h s1, FrameReader.readHeader s = Returns h s1
                  /\ Codec.stream s' = Codec.stream s1
                  /\ (e = IndexError \/ e = HeaderError).
Proof.
  unfold FrameReader.read. unfold bind at 1.
  destruct (FrameReader.readHeader s) as [h s1|e1 s1|] eqn:Hh; [| |discriminate].
  2:{ intros [= <- _]. left. exact (readHeader_raises _ _ _ Hh). }
  unfold bind at 1.
  pose proof (getChannel_footprint (header.id h) s1) as Hget.
  destruct (Codec.getChannel (header.id h) s1) as [channel s2|e2 s2|]; [| |contradiction].
  2:{ destruct Hget as (-> & -> & _). intros [= <- <-]. right. eauto 6. }
  destruct Hget as (Hst & _).
  unfold Codec.on_channel, zoom. unfold bind at 1. unfold Channel.in_channel at 1.
  unfold zoom at 1. cbn [fst snd].
  destruct (Channel.setHeader h channel) as [[] c1|e3 c1|] eqn:Hset; [| |discriminate].
  2:{ intros [= <- <-]. right. exists h, s1. split; [reflexivity|]. split; [exact Hst|].
      right. destruct h as [a|r]; cbn in Hset; [discriminate|].
      destruct (Channel.header channel); [discriminate|]. now injection Hset as <-. }
  destruct (setHeader_returns _ _ _ Hset) as (a & -> & _).
  unfold bind at 1. unfold Channel.readFrame at 1. cbn [fst snd Channel.assign Channel.bodyRemaining
    Channel.frameRemaining Channel.frameSize].
  unfold_py. cbn [fst snd].
  match goal with |- context [BufferedByteStream.read ?l ?st] =>
    pose proof (read_raises_IOError l st) as Hread;
    destruct (BufferedByteStream.read l st) as [d st2|e4 st2|] end; [| |discriminate].
  2:{ intros [= <- _]. auto. }
  cbn [fst snd]. unfold Channel._adjustFrameRemaining.
  destruct (Channel.drop_frames _ _ _) as [l'|]; [|discriminate].
  destruct (l' >=? _); cbn [fst snd];
    match goal with |- context [Channel.complete ?c] => destruct (Channel.complete c) end;
    discriminate.
Qed.

Lemma next_same_channels (s : Codec.t) :
  match FrameReader.next s, FrameReader.read s with
  | Returns _ s', Returns _ s0 | Raises _ s', Raises _ s0 =>
      Codec.channels s' = Codec.channels s0 /\ Codec.frameSize s' = Codec.frameSize s0
  | Diverges, Diverges => True
  | _, _ => False
  end.
Proof.
  unfold FrameReader.next.
  destruct (FrameReader.read s) as [a s0|e s0|]; [auto| |exact I].
  destruct e; auto. destruct (BufferedByteStream.at_eof _); auto.
Qed.

(** The footprint of a whole step: [next] differs from its try block in the
    stream alone. *)
Lemma next_footprint (s : Codec.t) :
  match FrameReader.next s with
  | Returns _ s' | Raises _ s' =>
      Codec.frameSize s' = Codec.frameSize s
      /\ match FrameReader.readHeader s with
         | Returns h _ =>
             (forall k, k <> header.id h ->
                        Codec.channels s' !! k = Codec.channels s !! k)
             /\ match Codec.channels s' !! header.id h with
                | Some c' =>
                    Channel.channelId c' =
                      match Codec.channels s !! header.id h with
                      | Some c0 => Channel.channelId c0
                      | None => header.id h
                      end
                    /\ Channel.frameSize c' =
                      match Codec.channels s !! header.id h with
                      | Some c0 => Channel.frameSize c0
                      | None => Codec.frameSize s
                      end
                | None => Codec.channels s !! header.id h = None
                end
         | _ => Codec.channels s' = Codec.channels s
         end
  | Diverges => True
  end.
Proof.
  pose proof (next_same_channels s) as Hsame. pose proof (read_footprint s) as Hread.
  destruct (FrameReader.next s) as [a s'|e s'|]; [| |exact I];
    destruct (FrameReader.read s) as [a0 s0|e0 s0|]; try contradiction.
  all: destruct Hsame as (-> & ->); destruct Hread as (_ & Hfs & Hch); auto.
Qed.

Lemma codec_invariant_init (stream : option BufferedByteStream.t) :
  codec_invariant (Codec.__init__ stream).
Proof. split; apply map_Forall_empty. Qed.

Lemma codec_invariant_setFrameSize (size : Z) (s : Codec.t) :
  ids_agree s -> codec_invariant (Codec.setFrameSize size s).
Proof.
  intros Hids. split.
  - intros k c. cbn. rewrite lookup_fmap.
    destruct (Codec.channels s !! k); [|discriminate]. now intros [= <-].
  - intros k c. cbn. rewrite lookup_fmap.
    destruct (Codec.channels s !! k) as [c0|] eqn:Hk; [|discriminate].
    intros [= <-]. cbn. exact (Hids k c0 Hk).
Qed.

Lemma codec_invariant_getChannel (channelId : Z) (s : Codec.t) :
  codec_invariant s ->
  match Codec.getChannel channelId s with
  | Returns c s' =>
      codec_invariant s' /\ Channel.channelId c = channelId
      /\ Channel.frameSize c = Codec.frameSize s
  | Raises _ s' => codec_invariant s'
  | Diverges => True
  end.
Proof.
  intros [Hsizes Hids]. unfold Codec.getChannel.
  destruct (Codec.channels s !! channelId) as [c|] eqn:Hc.
  - split; [now split|]. split; [exact (Hids _ _ Hc)|exact (Hsizes _ _ Hc)].
  - destruct (channelId >? MAX_CHANNELS); [now split|].
    split; [|split; reflexivity].
    split; intros k c'; cbn; intros Hk;
      (destruct (decide (k = channelId)) as [->|Hne];
       [rewrite lookup_insert_eq in Hk; now injection Hk as <-
       |rewrite lookup_insert_ne in Hk by congruence]).
    + exact (Hsizes _ _ Hk).
    + exact (Hids _ _ Hk).
Qed.

Lemma codec_invariant_next (s : Codec.t) :
  codec_invariant s ->
  match FrameReader.next s with
  | Returns _ s' | Raises _ s' => codec_invariant s'
  | Diverges => True
  end.
Proof.
  intros [Hsizes Hids]. pose proof (next_footprint s) as Hfoot.
  destruct (FrameReader.next s) as [a s'|e s'|]; [| |exact I].
  all: destruct Hfoot as (Hfs & Hch).
  all: destruct (FrameReader.readHeader s) as [h s1|e1 s1|];
    [|split; intros k c; rewrite Hch, ?Hfs; [apply Hsizes|apply Hids]..].
  all: destruct Hch as (Hother & Hthis).
  all: split; intros k c Hk;
    (destruct (decide (k = header.id h)) as [->|Hne];
     [rewrite Hk in Hthis; destruct Hthis as (Hid & Hsize);
      destruct (Codec.channels s !! header.id h) as [c0|] eqn:Hc0
     |rewrite (Hother k Hne) in Hk]).
  all: rewrite ?Hfs.
  all: first [ exact (Hsizes _ _ Hk) | exact (Hids _ _ Hk)
             | rewrite Hsize; exact (Hsizes _ _ Hc0)
             | rewrite Hid; exact (Hids _ _ Hc0)
             | assumption ].
Qed.

(** X5: the tables of a codec stay consistent.  A codec starts with each
    channel stored under its own id and carrying the frame size of the
    codec (it has none); [setFrameSize], [getChannel], [FrameReader.send]
    and [FrameReader.next] keep it so, whether they return or raise. *)
Theorem codec_tables_stay_consistent (s : Codec.t) :
  codec_invariant s ->
  (forall size, codec_invariant (Codec.setFrameSize size s))
  /\ (forall data, codec_invariant (FrameReader.send data s))
  /\ (forall channelId,
        match Codec.getChannel channelId s with
        | Returns c s' =>
            codec_invariant s' /\ Channel.channelId c = channelId
            /\ Channel.frameSize c = Codec.frameSize s
        | Raises _ s' => codec_invariant s'
        | Diverges => False
        end)
  /\ match FrameReader.next s with
     | Returns _ s' | Raises _ s' => codec_invariant s'
     | Diverges => True
     end.
Proof.
  intros Hinv. split; [|split; [|split]].
  - intros size. apply codec_invariant_setFrameSize, Hinv.
  - intros data. destruct Hinv as [Hsizes Hids]. now split.
  - intros channelId. pose proof (codec_invariant_getChannel channelId s Hinv) as Hget.
    pose proof (getChannel_footprint channelId s) as Hfoot.
    destruct (Codec.getChannel channelId s); auto.
  - now apply codec_invariant_next.
Qed.

Lemma codec_tables_stay_consistent_witness :
  let wire := [x03; x00; x00; x00; x00; x00; x02; x14; x01; x00; x00; x00; xaa; xbb] in
  let s := Codec.__init__ (Some (BufferedByteStream.mk wire 0)) in
  codec_invariant s
  /\ codec_invariant (Codec.setFrameSize 64 s)
  /\ codec_invariant (state_after (FrameReader.next s) s).
Proof.
  intros wire s.
  pose proof (codec_invariant_init (Some (BufferedByteStream.mk wire 0))) as Hinit.
  destruct (codec_tables_stay_consistent s Hinit) as (Hsize & _ & _ & Hnext).
  assert (Hrun : FrameReader.next s =
                 Returns ([xaa; xbb], true, Some (header.mkAbsolute 3 0 20 2 1))
                         (Codec.mk (BufferedByteStream.mk wire 14)
                            {[ 3 := Channel.mk 3 (Some (header.mkAbsolute 3 0 20 2 1))
                                               128 0 None 128 ]} 128))
    by (vm_compute; reflexivity).
  rewrite Hrun in Hnext |- *.
  exact (conj Hinit (conj (Hsize 64) Hnext)).
Defined.

(** At the end of the buffer the header cannot be read. *)
Lemma decodeHeader_at_eof (st : BufferedByteStream.t) :
  BufferedByteStream.at_eof st = true ->
  header.decodeHeader st = Raises IOError st.
Proof.
  intros Heof. unfold header.decodeHeader, header.read_uint.
  unfold bind at 1. unfold bind at 1.
  unfold BufferedByteStream.read, BufferedByteStream.at_eof,
    BufferedByteStream.remaining in *.
  apply Nat.eqb_eq in Heof. rewrite Heof, Nat.sub_diag. reflexivity.
Qed.

Lemma seek_back (st st' : BufferedByteStream.t) :
  BufferedByteStream.data st' = BufferedByteStream.data st ->
  BufferedByteStream.seek (BufferedByteStream.tell st) st' = st.
Proof.
  destruct st, st'. cbn. now intros ->.
Qed.

(** X6: a step stops the iteration exactly at the end of the buffer, and
    then it empties the buffer and leaves channels and frame size alone. *)
Theorem next_stops_exactly_at_eof (s s' : Codec.t) :
  FrameReader.next s = Raises StopIteration s'
  <-> BufferedByteStream.at_eof (Codec.stream s) = true
      /\ s' = Codec.mk BufferedByteStream.empty (Codec.channels s) (Codec.frameSize s).
Proof.
  assert (Hstop : BufferedByteStream.at_eof (Codec.stream s) = true ->
                  FrameReader.next s =
                  Raises StopIteration
                         (Codec.mk BufferedByteStream.empty (Codec.channels s)
                                   (Codec.frameSize s))).
  { intros Heof. unfold FrameReader.next, FrameReader.read, FrameReader.readHeader,
      FrameReader.in_stream. unfold bind at 1. unfold zoom at 1.
    rewrite (decodeHeader_at_eof _ Heof). cbn [Codec.stream].
    rewrite seek_back by reflexivity. rewrite Heof. cbn [Codec.channels Codec.frameSize].
    unfold BufferedByteStream.consume, BufferedByteStream.at_eof in *.
    apply Nat.eqb_eq in Heof. rewrite Heof, drop_all. reflexivity. }
  split.
  - intros Hnext.
    assert (Heof : BufferedByteStream.at_eof (Codec.stream s) = true).
    { unfold FrameReader.next in Hnext.
      pose proof (read_footprint s) as Hfoot.
      destruct (FrameReader.read s) as [a s0|e s0|] eqn:Hread;
        [discriminate| |discriminate].
      destruct Hfoot as (Hdata & _).
      destruct e;
        try (apply read_raises in Hread;
             destruct Hread as [?|(? & ? & _ & _ & [?|?])]; discriminate).
      cbn [Codec.stream] in Hnext. rewrite seek_back in Hnext by exact Hdata.
      destruct (BufferedByteStream.at_eof (Codec.stream s)); [reflexivity|discriminate]. }
    split; [exact Heof|]. rewrite (Hstop Heof) in Hnext. now injection Hnext as <-.
  - intros [Heof ->]. exact (Hstop Heof).
Qed.

(** X7: when a step lacks bytes before the end of the buffer it raises
    IOError with the stream back where the step began; no other exception
    rewinds: after IndexError and HeaderError the header has been
    consumed. *)
Theorem next_rewinds_on_short_read (s s' : Codec.t) (e : Exception) :
  FrameReader.next s = Raises e s' ->
  Codec.frameSize s' = Codec.frameSize s
  /\ match e with
     | IOError =>
         Codec.stream s' = Codec.stream s
         /\ BufferedByteStream.at_eof (Codec.stream s) = false
     | StopIteration => BufferedByteStream.at_eof (Codec.stream s) = true
     | IndexError | HeaderError =>
         exists h s1, FrameReader.readHeader s = Returns h s1
                      /\ Codec.stream s' = Codec.stream s1
     | _ => False
     end.
Proof.
  intros Hnext. pose proof (next_footprint s) as Hfoot. rewrite Hnext in Hfoot.
  destruct Hfoot as (Hfs & _). split; [exact Hfs|].
  unfold FrameReader.next in Hnext.
  pose proof (read_footprint s) as Hfoot.
  destruct (FrameReader.read s) as [a s0|e0 s0|] eqn:Hread; [discriminate| |discriminate].
  destruct Hfoot as (Hdata & _).
  destruct (read_raises _ _ _ Hread) as [-> | (h & s1 & Hh & Hst & [-> | ->])].
  - cbn [Codec.stream] in Hnext. rewrite seek_back in Hnext by exact Hdata.
    destruct (BufferedByteStream.at_eof (Codec.stream s)) eqn:Heof;
      injection Hnext as <- <-; auto.
  - injection Hnext as <- <-. eauto.
  - injection Hnext as <- <-. eauto.
Qed.

Lemma next_rewinds_on_short_read_witness :
  let wire := [x03; x00; x00; x00; x00; x00; x02; x14; x01; x00; x00; x00; xaa] in
  let s := Codec.__init__ (Some (BufferedByteStream.mk wire 0)) in
  exists s', FrameReader.next s = Raises IOError s'
             /\ Codec.stream s' = BufferedByteStream.mk wire 0
             /\ Codec.frameSize s' = 128.
Proof.
  intros wire s.
  assert (Hnext : FrameReader.next s =
                  Raises IOError
                    (Codec.mk (BufferedByteStream.mk wire 0)
                       {[ 3 := Channel.mk 3 (Some (header.mkAbsolute 3 0 20 2 1))
                                          128 0 (Some 2) 128 ]} 128))
    by (vm_compute; reflexivity).
  destruct (next_rewinds_on_short_read _ _ _ Hnext) as (Hfs & Hst & _).
  eexists. exact (conj Hnext (conj Hst Hfs)).
Defined.

(** X8: a step touches one channel at most, the one named by the header it
    decoded, whether it returns or raises; without a header it touches
    none.  The frame size of the codec is never changed. *)
Theorem next_touches_one_channel (s : Codec.t) :
  match FrameReader.next s with
  | Returns _ s' | Raises _ s' =>
      Codec.frameSize s' = Codec.frameSize s
      /\ match FrameReader.readHeader s with
         | Returns h _ =>
             forall k, k <> header.id h ->
                       Codec.channels s' !! k = Codec.channels s !! k
         | _ => Codec.channels s' = Codec.channels s
         end
  | Diverges => True
  end.
Proof.
  pose proof (next_footprint s) as Hfoot.
  destruct (FrameReader.next s) as [a s'|e s'|]; [| |exact I].
  all: destruct Hfoot as (Hfs & Hch); split; [exact Hfs|].
  all: destruct (FrameReader.readHeader s); [apply Hch|exact Hch..].
Qed.

Lemma adjustFrameRemaining_total (c : Channel.t) (l : Z) :
  0 < Channel.frameSize c ->
  exists c', Channel._adjustFrameRemaining l c = Returns tt c'.
Proof.
  intros Hsize. unfold Channel._adjustFrameRemaining.
  destruct (Z_lt_le_dec l 0) as [Hneg|Hpos].
  - rewrite drop_frames_small by lia. destruct (l >=? _); eauto.
  - rewrite (drop_frames_terminates (Channel.frameSize c)) by lia.
    destruct (_ >=? _); eauto.
Qed.

Lemma readFrame_total (c : Channel.t) (st : BufferedByteStream.t) :
  0 < Channel.frameSize c -> Channel.readFrame (c, st) <> Diverges.
Proof.
  intros Hsize. unfold Channel.readFrame. cbn [fst snd].
  destruct (Channel.bodyRemaining c) as [r|]; [|cbn; discriminate].
  unfold_py. cbn [fst snd].
  destruct (BufferedByteStream.read _ st) as [d st1|e st1|] eqn:Hread;
    [|discriminate|].
  - cbn [fst snd].
    match goal with |- context [Channel._adjustFrameRemaining ?l ?c1] =>
      destruct (adjustFrameRemaining_total c1 l Hsize) as (c' & ->) end.
    discriminate.
  - exfalso. revert Hread. unfold BufferedByteStream.read.
    destruct (_ && _); [discriminate|]. destruct (_ && _); [discriminate|].
    destruct (_ <? -1); [discriminate|]. destruct (_ <? 0); discriminate.
Qed.

Lemma read_total (s : Codec.t) :
  frame_sizes_agree s -> 0 < Codec.frameSize s -> FrameReader.read s <> Diverges.
Proof.
  intros Hsizes Hpos. unfold FrameReader.read. unfold bind at 1.
  pose proof (keeps_data_decodeHeader (Codec.stream s)) as Hdec.
  unfold FrameReader.readHeader, FrameReader.in_stream. unfold zoom at 1.
  destruct (header.decodeHeader (Codec.stream s)) as [h st1|e st1|] eqn:Hh;
    [|discriminate|].
  2:{ exfalso. revert Hh. clear.
      unfold header.decodeHeader, header.extended, header.read_uint.
      assert (Hread : forall l st, BufferedByteStream.read l st <> Diverges).
      { intros l st. unfold BufferedByteStream.read.
        destruct (_ && _); [discriminate|]. destruct (_ && _); [discriminate|].
        destruct (_ <? -1); [discriminate|]. destruct (_ <? 0); discriminate. }
      unfold bind, ret.
      repeat match goal with
             | |- context [BufferedByteStream.read ?l ?st] =>
                 let H := fresh in
                 pose proof (Hread l st) as H;
                 destruct (BufferedByteStream.read l st); [|discriminate|contradiction];
                 clear H
             | |- context [if ?b then _ else _] => destruct b
             end; discriminate. }
  unfold bind at 1.
  match goal with |- context [Codec.getChannel ?id ?s1] =>
    pose proof (getChannel_footprint id s1) as Hget;
    destruct (Codec.getChannel id s1) as [channel s2|e2 s2|] end;
    [|discriminate|contradiction].
  destruct Hget as (Hst & Hfs & _ & Hc). cbn [Codec.channels Codec.frameSize] in Hc.
  assert (Hsize : Channel.frameSize channel = Codec.frameSize s).
  { destruct (Codec.channels s !! header.id h) as [c0|] eqn:Hc0.
    - subst c0. exact (Hsizes _ _ Hc0).
    - destruct Hc as (-> & _). reflexivity. }
  unfold Codec.on_channel, zoom. unfold bind at 1. unfold Channel.in_channel at 1.
  unfold zoom at 1. cbn [fst snd].
  destruct (Channel.setHeader h channel) as [[] c1|e3 c1|] eqn:Hset;
    [|discriminate|destruct h as [a|r]; cbn in Hset; [discriminate|];
                    destruct (Channel.header channel); discriminate].
  destruct (setHeader_returns _ _ _ Hset) as (a & -> & _).
  unfold bind at 1.
  match goal with |- context [Channel.readFrame ?cs] =>
    pose proof (readFrame_total (fst cs) (snd cs)) as Hrf; cbn [fst snd] in Hrf;
    destruct (Channel.readFrame cs) as [d [c2 st2]|e4 cs2|] end;
    [|discriminate|].
  - unfold_py. cbn [fst snd]. destruct (Channel.complete c2); discriminate.
  - exfalso. apply Hrf; [|reflexivity]. cbn. lia.
Qed.

(** ** Failed steps and their retry *)

Lemma survives_append_ret {A} (a : A) : survives_append (ret a).
Proof. intros st a' st' d [= <- <-]. reflexivity. Qed.

Lemma survives_append_bind {A B} (m : M BufferedByteStream.t A)
    (k : A -> M BufferedByteStream.t B) :
  survives_append m -> (forall a, survives_append (k a)) -> survives_append (bind m k).
Proof.
  intros Hm Hk st b st' d. unfold bind.
  destruct (m st) as [a st1|e st1|] eqn:Hrun; [|discriminate..].
  intros Hrest. rewrite (Hm _ _ _ d Hrun). exact (Hk a _ _ _ d Hrest).
Qed.

Lemma survives_append_read (l : Z) :
  0 <= l -> survives_append (BufferedByteStream.read l).
Proof.
  intros Hl [data pos] a st' d. unfold BufferedByteStream.read, BufferedByteStream.append,
    BufferedByteStream.remaining, BufferedByteStream.at_eof.
  cbn [BufferedByteStream.data BufferedByteStream.position].
  destruct (l =? -1) eqn:E1; [lia|]. cbn [andb].
  destruct (l <? -1) eqn:E6; [lia|].
  destruct (l <? 0) eqn:E4; [lia|].
  destruct (0 <? l) eqn:E2; cbn [andb].
  - destruct (Z.of_nat (length data - pos) <? l) eqn:E3; [discriminate|].
    intros [= <- <-]. rewrite length_app.
    destruct (Z.of_nat (length data + length d - pos) <? l) eqn:E5; [lia|].
    rewrite drop_app_le by lia. rewrite take_app_le by (rewrite length_drop; lia).
    reflexivity.
  - intros [= <- <-]. replace (Z.to_nat l) with 0%nat by lia. reflexivity.
Qed.

Lemma survives_append_decodeHeader : survives_append header.decodeHeader.
Proof.
  unfold header.decodeHeader, header.extended, header.read_uint.
  repeat first
    [ apply survives_append_read; lia | apply survives_append_ret
    | apply survives_append_bind; [|intros ?]
    | match goal with |- survives_append (if ?b then _ else _) => destruct b end ].
Qed.

(** A header that has been decoded is decoded again, the same, once more
    bytes have been sent. *)
Lemma readHeader_send (s s1 : Codec.t) (h : header.Header) (d : str) :
  FrameReader.readHeader s = Returns h s1 ->
  FrameReader.readHeader (FrameReader.send d s) = Returns h (FrameReader.send d s1).
Proof.
  unfold FrameReader.readHeader, FrameReader.in_stream, zoom, FrameReader.send.
  cbn [Codec.stream Codec.channels Codec.frameSize].
  destruct (header.decodeHeader (Codec.stream s)) as [h0 st1|e st1|] eqn:Hdec;
    [|discriminate..].
  intros [= <- <-]. now rewrite (survives_append_decodeHeader _ _ _ d Hdec).
Qed.

Lemma readFrame_raises (c : Channel.t) (st : BufferedByteStream.t) (e : Exception)
    (cs : Channel.t * BufferedByteStream.t) :
  Channel.readFrame (c, st) = Raises e cs ->
  cs = (c, st) /\ (e = IOError \/ e = TypeError).
Proof.
  unfold Channel.readFrame. cbn [fst snd].
  destruct (Channel.bodyRemaining c) as [r|]; [|cbn; intros [= <- <-]; auto].
  unfold_py. cbn [fst snd].
  match goal with |- context [BufferedByteStream.read ?l ?st] =>
    pose proof (read_raises_IOError l st) as Hio;
    destruct (BufferedByteStream.read l st) as [d st2|e4 st2|] eqn:Hread end;
    [| |discriminate].
  - cbn [fst snd]. unfold Channel._adjustFrameRemaining.
    destruct (Channel.drop_frames _ _ _) as [l'|]; [|discriminate].
    destruct (l' >=? _); discriminate.
  - intros [= <- <-]. split; [|auto]. f_equal. revert Hread.
    unfold BufferedByteStream.read.
    destruct (_ && _); [now intros [= _ <-]|]. destruct (_ && _); [now intros [= _ <-]|].
    destruct (_ <? -1); [now intros [= _ <-]|]. destruct (_ <? 0); discriminate.
Qed.


(** A step that fails for lack of body bytes has set the header of the
    channel all the same, and has put the stream back. *)
Lemma next_short_frame (s s1 s' : Codec.t) (h : header.Header) :
  FrameReader.readHeader s = Returns h s1 ->
  FrameReader.next s = Raises IOError s' ->
  exists c1,
    Channel.setHeader h (channel_for (header.id h) s) = Returns tt c1
    /\ (Codec.channels s !! header.id h = None -> header.id h <= MAX_CHANNELS)
    /\ s' = Codec.mk (Codec.stream s) (<[header.id h := c1]> (Codec.channels s))
                     (Codec.frameSize s).
Proof.
  intros Hh Hnext.
  assert (Hs1 : s1 = Codec.mk (Codec.stream s1) (Codec.channels s) (Codec.frameSize s)
                /\ BufferedByteStream.data (Codec.stream s1)
                   = BufferedByteStream.data (Codec.stream s)).
  { revert Hh. unfold FrameReader.readHeader, FrameReader.in_stream, zoom.
    pose proof (keeps_data_decodeHeader (Codec.stream s)) as Hdata.
    destruct (header.decodeHeader (Codec.stream s)); [|discriminate..].
    intros [= _ <-]. split; [reflexivity|exact Hdata]. }
  destruct Hs1 as (Hs1 & Hdata).
  revert Hnext. unfold FrameReader.next, FrameReader.read. unfold bind at 1. rewrite Hh.
  unfold bind at 1.
  pose proof (getChannel_footprint (header.id h) s1) as Hget.
  destruct (Codec.getChannel (header.id h) s1) as [channel s2|e2 s2|];
    [| |contradiction].
  2:{ destruct Hget as (_ & -> & _). discriminate. }
  destruct Hget as (Hst & Hfs & Hch & Hc).
  rewrite Hs1 in Hfs, Hch, Hc. cbn [Codec.channels Codec.frameSize] in Hfs, Hch, Hc.
  assert (Hchannel : channel = channel_for (header.id h) s
                     /\ (Codec.channels s !! header.id h = None ->
                         header.id h <= MAX_CHANNELS)).
  { unfold channel_for. destruct (Codec.channels s !! header.id h).
    - split; [exact Hc|discriminate].
    - destruct Hc as (-> & Hle). split; [reflexivity|auto]. }
  destruct Hchannel as (Hchannel & Hle). rewrite <- Hchannel.
  unfold Codec.on_channel, zoom. unfold bind at 1. unfold Channel.in_channel at 1.
  unfold zoom at 1. cbn [fst snd].
  destruct (Channel.setHeader h channel) as [[] c1|e3 c1|] eqn:Hset;
    [| |discriminate].
  2:{ destruct h as [a|r]; cbn in Hset; [discriminate|].
      destruct (Channel.header channel); [discriminate|]. injection Hset as <- <-.
      discriminate. }
  unfold bind at 1.
  destruct (Channel.readFrame (c1, Codec.stream s2)) as [d [c2 st2]|e4 cs|] eqn:Hread;
    [| |discriminate].
  { unfold_py. cbn [fst snd]. destruct (Channel.complete c2); discriminate. }
  destruct (readFrame_raises _ _ _ _ Hread) as (-> & He4).
  cbn [fst snd Codec.stream Codec.channels Codec.frameSize].
  destruct He4 as [-> | ->]; [|discriminate].
  rewrite Hst, seek_back by exact Hdata.
  destruct (BufferedByteStream.at_eof (Codec.stream s)); [discriminate|].
  intros [= <-]. exists c1. split; [reflexivity|]. split; [exact Hle|].
  rewrite Hch, Hfs. f_equal. apply insert_insert_eq.
Qed.

(** When [read] raises. *)
Lemma read_raises_iff (l : Z) (st : BufferedByteStream.t) :
  (exists e st', BufferedByteStream.read l st = Raises e st')
  <-> (0 < l /\ (BufferedByteStream.remaining st < Z.to_nat l)%nat)
      \/ l < -1
      \/ (l = -1 /\ BufferedByteStream.at_eof st = true).
Proof.
  unfold BufferedByteStream.read.
  destruct (l =? -1) eqn:E1; destruct (BufferedByteStream.at_eof st) eqn:Heof;
    cbn [andb].
  - split; [intros _; right; right; split; [lia|reflexivity]|eauto].
  - destruct (0 <? l) eqn:E2; [lia|]. cbn [andb].
    destruct (l <? -1) eqn:E3; [lia|]. destruct (l <? 0) eqn:E4; [|lia].
    split; [intros (e & st' & [=])|]. intros [H|[H|[_ [=]]]]; lia.
  - destruct (0 <? l) eqn:E2; cbn [andb].
    + destruct (Z.of_nat (BufferedByteStream.remaining st) <? l) eqn:E3.
      * split; [intros _; left; lia|eauto].
      * destruct (l <? -1) eqn:E5; [lia|]. destruct (l <? 0) eqn:E4; [lia|].
        split; [intros (e & st' & [=])|]. intros [H|[H|H]]; lia.
    + destruct (l <? -1) eqn:E3; [split; [intros _; right; left; lia|eauto]|].
      destruct (l <? 0) eqn:E4; (split; [intros (e & st' & [=])|]);
        intros [H|[H|H]]; lia.
  - destruct (0 <? l) eqn:E2; cbn [andb].
    + destruct (Z.of_nat (BufferedByteStream.remaining st) <? l) eqn:E3.
      * split; [intros _; left; lia|eauto].
      * destruct (l <? -1) eqn:E5; [lia|]. destruct (l <? 0) eqn:E4; [lia|].
        split; [intros (e & st' & [=])|]. intros [H|[H|H]]; lia.
    + destruct (l <? -1) eqn:E3; [split; [intros _; right; left; lia|eauto]|].
      destruct (l <? 0) eqn:E4; (split; [intros (e & st' & [=])|]);
        intros [H|[H|H]]; lia.
Qed.

(** X3: [readFrame] fails as a whole.  On a channel whose header has been
    set it raises nothing but IOError, and when it raises neither the
    counters of the channel nor the position of the stream have moved.  It
    raises exactly when the stream cannot give the frame: the frame is
    longer than what is left in the stream, its length is below -1, or it
    is -1 at the end of the buffer. *)
Theorem readFrame_fails_whole (c : Channel.t) (st : BufferedByteStream.t) (r : Z) :
  Channel.bodyRemaining c = Some r ->
  let l := frame_length c r in
  (forall e cs,
     Channel.readFrame (c, st) = Raises e cs -> cs = (c, st) /\ e = IOError)
  /\ (Channel.readFrame (c, st) = Raises IOError (c, st)
      <-> (0 < l /\ (BufferedByteStream.remaining st < Z.to_nat l)%nat)
          \/ l < -1
          \/ (l = -1 /\ BufferedByteStream.at_eof st = true)).
Proof.
  intros Hb l.
  assert (Hrun : forall e cs,
             Channel.readFrame (c, st) = Raises e cs ->
             cs = (c, st) /\ e = IOError
             /\ exists st', BufferedByteStream.read l st = Raises e st').
  { intros e cs Hraise. destruct (readFrame_raises _ _ _ _ Hraise) as (-> & _).
    split; [reflexivity|]. revert Hraise.
    unfold Channel.readFrame. cbn [fst snd]. rewrite Hb. fold (frame_length c r).
    fold l. unfold_py. cbn [fst snd].
    pose proof (read_raises_IOError l st) as Hio.
    destruct (BufferedByteStream.read l st) as [d st2|e4 st2|]; [| |discriminate].
    - cbn [fst snd]. unfold Channel._adjustFrameRemaining.
      destruct (Channel.drop_frames _ _ _) as [l'|]; [|discriminate].
      destruct (l' >=? _); discriminate.
    - intros [= <- _]. split; [exact Hio|eauto]. }
  split; [intros e cs Hraise; destruct (Hrun e cs Hraise) as (? & ? & _); auto|].
  rewrite <- read_raises_iff. split.
  - intros Hraise. destruct (Hrun _ _ Hraise) as (_ & _ & st' & Hread). eauto.
  - intros (e & st' & Hread).
    pose proof (read_raises_IOError l st) as Hio. rewrite Hread in Hio. subst e.
    pose proof (keeps_data_read l st) as Hdata.
    unfold Channel.readFrame. cbn [fst snd]. rewrite Hb. fold (frame_length c r).
    fold l. unfold_py. cbn [fst snd]. rewrite Hread. cbn [fst snd]. do 2 f_equal.
    revert Hread. unfold BufferedByteStream.read.
    destruct (_ && _); [now intros [= <-]|]. destruct (_ && _); [now intros [= <-]|].
    destruct (_ <? -1); [now intros [= <-]|]. destruct (_ <? 0); discriminate.
Qed.

Lemma readFrame_fails_whole_witness :
  let c := Channel.mk 3 (Some (header.mkAbsolute 3 0 20 300 1)) 128 0 (Some 300) 128 in
  let st := BufferedByteStream.mk (repeat x00 100) 0 in
  Channel.readFrame (c, st) = Raises IOError (c, st).
Proof.
  intros c st.
  destruct (readFrame_fails_whole c st 300 eq_refl) as (_ & _ & Hshort).
  apply Hshort. left. split; [reflexivity|vm_compute; lia].
Defined.

(** The header is decoded from the stream alone. *)
Lemma readHeader_tables (s s1 : Codec.t) (h : header.Header)
    (channels : gmap Z Channel.t) (frameSize : Z) :
  FrameReader.readHeader s = Returns h s1 ->
  FrameReader.readHeader (Codec.mk (Codec.stream s) channels frameSize)
  = Returns h (Codec.mk (Codec.stream s1) channels frameSize).
Proof.
  unfold FrameReader.readHeader, FrameReader.in_stream, zoom. cbn [Codec.stream].
  destruct (header.decodeHeader (Codec.stream s)); [|discriminate..].
  now intros [= <- <-].
Qed.

Lemma readHeader_state (s s1 : Codec.t) (h : header.Header) :
  FrameReader.readHeader s = Returns h s1 ->
  s1 = Codec.mk (Codec.stream s1) (Codec.channels s) (Codec.frameSize s).
Proof.
  unfold FrameReader.readHeader, FrameReader.in_stream, zoom.
  destruct (header.decodeHeader (Codec.stream s)); [|discriminate..].
  now intros [= _ <-].
Qed.

Lemma getChannel_channel_for (channelId : Z) (s : Codec.t) :
  (Codec.channels s !! channelId = None -> channelId <= MAX_CHANNELS) ->
  Codec.getChannel channelId s =
    Returns (channel_for channelId s)
            (Codec.mk (Codec.stream s)
                      (<[channelId := channel_for channelId s]> (Codec.channels s))
                      (Codec.frameSize s)).
Proof.
  intros Hle. unfold Codec.getChannel, channel_for.
  destruct (Codec.channels s !! channelId) as [c|] eqn:Hc; cbn [default].
  - rewrite insert_id by exact Hc. now destruct s.
  - destruct (channelId >? MAX_CHANNELS) eqn:E; [specialize (Hle eq_refl); lia|].
    reflexivity.
Qed.

(** The try block, once the header is decoded: what it does depends on
    the channel table through the channel of the header alone. *)
Lemma read_with_header (s s1 : Codec.t) (h : header.Header) :
  FrameReader.readHeader s = Returns h s1 ->
  (Codec.channels s !! header.id h = None -> header.id h <= MAX_CHANNELS) ->
  FrameReader.read s =
    match
      (Channel.in_channel (Channel.setHeader h) ;;;
       bytes <- Channel.readFrame ;;
       c <- Channel.in_channel get ;;
       (if Channel.complete c then Channel.in_channel (modify Channel.reset)
        else ret tt) ;;;
       c <- Channel.in_channel get ;;
       ret (bytes, Channel.complete c, Channel.header c))
        (channel_for (header.id h) s, Codec.stream s1)
    with
    | Returns a cs =>
        Returns a (Codec.mk (snd cs) (<[header.id h := fst cs]> (Codec.channels s))
                            (Codec.frameSize s))
    | Raises e cs =>
        Raises e (Codec.mk (snd cs) (<[header.id h := fst cs]> (Codec.channels s))
                           (Codec.frameSize s))
    | Diverges => Diverges
    end.
Proof.
  intros Hh Hle. unfold FrameReader.read. unfold bind at 1. rewrite Hh.
  rewrite (readHeader_state _ _ _ Hh). unfold bind at 1.
  rewrite getChannel_channel_for by exact Hle.
  unfold Codec.on_channel, zoom. cbn [Codec.stream Codec.channels Codec.frameSize].
  change (channel_for (header.id h)
            (Codec.mk (Codec.stream s1) (Codec.channels s) (Codec.frameSize s)))
    with (channel_for (header.id h) s).
  match goal with |- match ?m with _ => _ end = _ => destruct m as [a cs|e cs|] end;
    try reflexivity; now rewrite insert_insert_eq.
Qed.

Lemma assign_twice (a : header.Absolute) (c : Channel.t) :
  Channel.assign a (Channel.assign a c) = Channel.assign a c.
Proof. reflexivity. Qed.

Lemma setHeader_absolute_then {A} (a : header.Absolute)
    (k : M (Channel.t * BufferedByteStream.t) A) (c : Channel.t)
    (st : BufferedByteStream.t) :
  (Channel.in_channel (Channel.setHeader (header.Abs a)) ;;; k) (c, st)
  = k (Channel.assign a c, st).
Proof. reflexivity. Qed.

(** X9: a step that raised IOError for lack of body bytes can be taken
    again when more bytes have been sent: with an absolute header the
    retry does what the step would have done had the bytes been there. *)
Theorem retry_after_short_read (s s1 s' : Codec.t) (a : header.Absolute) (d : str) :
  FrameReader.readHeader s = Returns (header.Abs a) s1 ->
  FrameReader.next s = Raises IOError s' ->
  FrameReader.next (FrameReader.send d s') = FrameReader.next (FrameReader.send d s).
Proof.
  intros Hh Hnext.
  destruct (next_short_frame _ _ _ _ Hh Hnext) as (c1 & Hset & Hle & ->).
  cbn [Channel.setHeader header.id] in Hset, Hle |- *. injection Hset as <-.
  pose proof (readHeader_send _ _ _ d Hh) as Hsent.
  assert (Hread :
    FrameReader.read
      (FrameReader.send d
         (Codec.mk (Codec.stream s)
            (<[header.channelId a :=
                 Channel.assign a (channel_for (header.channelId a) s)]>
               (Codec.channels s)) (Codec.frameSize s)))
    = FrameReader.read (FrameReader.send d s)).
  { rewrite (read_with_header _ _ _ Hsent) by exact Hle.
    erewrite read_with_header;
      [|exact (readHeader_tables _ _ _ _ _ Hsent)
       |cbn [header.id FrameReader.send Codec.channels];
        rewrite lookup_insert_eq; discriminate].
    cbn [header.id FrameReader.send Codec.channels Codec.stream Codec.frameSize].
    unfold channel_for at 1. cbn [FrameReader.send Codec.channels Codec.frameSize].
    rewrite lookup_insert_eq. cbn [default].
    change (channel_for (header.channelId a) (FrameReader.send d s))
      with (channel_for (header.channelId a) s).
    unfold Datatypes.id. rewrite !setHeader_absolute_then, assign_twice.
    match goal with |- match ?m with _ => _ end = _ => destruct m as [x cs|e cs|] end;
      try reflexivity; now rewrite insert_insert_eq. }
  unfold FrameReader.next. rewrite Hread. reflexivity.
Qed.

Lemma retry_after_short_read_witness :
  let wire := [x03; x00; x00; x00; x00; x00; x02; x14; x01; x00; x00; x00; xaa] in
  let s := Codec.__init__ (Some (BufferedByteStream.mk wire 0)) in
  let meta := header.mkAbsolute 3 0 20 2 1 in
  let s' := Codec.mk (BufferedByteStream.mk wire 0)
              {[ 3 := Channel.mk 3 (Some meta) 128 0 (Some 2) 128 ]} 128 in
  FrameReader.next s = Raises IOError s'
  /\ FrameReader.next (FrameReader.send [xbb] s') =
       Returns ([xaa; xbb], true, Some meta)
               (Codec.mk (BufferedByteStream.mk (wire ++ [xbb]) 14)
                         {[ 3 := Channel.mk 3 (Some meta) 128 0 None 128 ]} 128).
Proof.
  intros wire s meta s'.
  assert (Hh : FrameReader.readHeader s =
               Returns (header.Abs meta)
                       (Codec.mk (BufferedByteStream.mk wire 12) ∅ 128))
    by (vm_compute; reflexivity).
  assert (Hnext : FrameReader.next s = Raises IOError s') by (vm_compute; reflexivity).
  split; [exact Hnext|].
  rewrite (retry_after_short_read s _ s' meta [xbb] Hh Hnext).
  vm_compute. reflexivity.
Defined.

Lemma setHeader_relative_then {A} (r : header.Relative) (old : header.Absolute)
    (k : M (Channel.t * BufferedByteStream.t) A) (c : Channel.t)
    (st : BufferedByteStream.t) :
  Channel.header c = Some old ->
  (Channel.in_channel (Channel.setHeader (header.Rel r)) ;;; k) (c, st)
  = k (Channel.assign (header.mergeHeaders old r) c, st).
Proof.
  intros Hold. unfold bind, Channel.in_channel, zoom. cbn [fst snd Channel.setHeader].
  now rewrite Hold.
Qed.

(** X10: a failed step is not undone.  When a step with a relative header
    raises IOError for lack of body bytes, the stream is put back but the
    channel keeps the merged header; the retry decodes the same relative
    header and merges it once more, so that the frame it returns carries a
    header merged twice (a timestamp delta is added twice). *)
Theorem retry_merges_relative_header_twice (s s1 s' : Codec.t) (r : header.Relative) :
  FrameReader.readHeader s = Returns (header.Rel r) s1 ->
  FrameReader.next s = Raises IOError s' ->
  exists c old,
    Codec.channels s !! header.rel_channelId r = Some c
    /\ Channel.header c = Some old
    /\ Codec.stream s' = Codec.stream s
    /\ Codec.channels s' !! header.rel_channelId r
       = Some (Channel.assign (header.mergeHeaders old r) c)
    /\ forall d data complete meta s'',
         FrameReader.next (FrameReader.send d s') = Returns (data, complete, meta) s'' ->
         meta = Some (header.mergeHeaders (header.mergeHeaders old r) r).
Proof.
  intros Hh Hnext.
  destruct (next_short_frame _ _ _ _ Hh Hnext) as (c1 & Hset & Hle & ->).
  cbn [header.id] in Hset, Hle |- *.
  unfold channel_for in Hset.
  destruct (Codec.channels s !! header.rel_channelId r) as [c|] eqn:Hc;
    [|discriminate].
  cbn [default from_option] in Hset. unfold Datatypes.id in Hset.
  cbn [Channel.setHeader] in Hset.
  destruct (Channel.header c) as [old|] eqn:Hold; [|discriminate].
  injection Hset as <-.
  exists c, old. cbn [Codec.stream Codec.channels].
  rewrite lookup_insert_eq.
  split; [reflexivity|]. split; [exact Hold|]. do 2 (split; [reflexivity|]).
  intros d data complete meta s'' Hretry.
  apply next_returns in Hretry.
  pose proof (readHeader_send _ _ _ d Hh) as Hsent.
  erewrite read_with_header in Hretry;
    [|exact (readHeader_tables _ _ _ _ _ Hsent)
     |cbn [header.id FrameReader.send Codec.channels];
      rewrite lookup_insert_eq; discriminate].
  cbn [header.id FrameReader.send Codec.channels Codec.stream Codec.frameSize] in Hretry.
  unfold channel_for in Hretry at 1.
  cbn [FrameReader.send Codec.channels Codec.frameSize] in Hretry.
  rewrite lookup_insert_eq in Hretry. cbn [default from_option] in Hretry.
  unfold Datatypes.id in Hretry.
  rewrite (setHeader_relative_then r (header.mergeHeaders old r)) in Hretry
    by reflexivity.
  unfold bind at 1 in Hretry.
  match type of Hretry with context [Channel.readFrame (?c0, ?st0)] =>
    destruct (Channel.readFrame (c0, st0)) as [bytes [c2 st2]|e cs|] eqn:Hread end;
    [|discriminate..].
  destruct (readFrame_keeps _ _ _ _ _ Hread) as (_ & Hhdr & _).
  cbn [Channel.assign Channel.header] in Hhdr.
  revert Hretry. unfold_py. cbn [fst snd].
  destruct (Channel.complete c2); cbn [fst snd Channel.reset Channel.header];
    intros [= _ _ <- _]; exact Hhdr.
Qed.

Lemma retry_merges_relative_header_twice_witness :
  let wire := [x43; x00; x00; x05; x00; x00; x02; x14; xaa] in
  let old := header.mkAbsolute 3 100 20 2 1 in
  let s := Codec.mk (BufferedByteStream.mk wire 0)
                    {[ 3 := Channel.mk 3 (Some old) 128 0 None 128 ]} 128 in
  exists s' s'' direct,
    FrameReader.next s = Raises IOError s'
    /\ Codec.stream s' = Codec.stream s
    /\ FrameReader.next (FrameReader.send [xbb] s') =
         Returns ([xaa; xbb], true, Some (header.mkAbsolute 3 110 20 2 1)) s''
    /\ FrameReader.next (FrameReader.send [xbb] s) =
         Returns ([xaa; xbb], true, Some (header.mkAbsolute 3 105 20 2 1)) direct.
Proof.
  intros wire old s.
  pose (r := header.mkRelative 3 (Some 5) (Some 20) (Some 2) None).
  assert (Hh : FrameReader.readHeader s =
               Returns (header.Rel r)
                       (Codec.mk (BufferedByteStream.mk wire 8)
                                 {[ 3 := Channel.mk 3 (Some old) 128 0 None 128 ]} 128))
    by (vm_compute; reflexivity).
  pose (s' := Codec.mk (BufferedByteStream.mk wire 0)
                {[ 3 := Channel.mk 3 (Some (header.mkAbsolute 3 105 20 2 1))
                                   128 0 (Some 2) 128 ]} 128).
  assert (Hnext : FrameReader.next s = Raises IOError s') by (vm_compute; reflexivity).
  destruct (retry_merges_relative_header_twice _ _ _ _ Hh Hnext)
    as (c & old' & _ & _ & Hst & _ & Htwice).
  pose (s'' := Codec.mk (BufferedByteStream.mk (wire ++ [xbb]) 10)
                 {[ 3 := Channel.mk 3 (Some (header.mkAbsolute 3 110 20 2 1))
                                    128 0 None 128 ]} 128).
  assert (Hretry : FrameReader.next (FrameReader.send [xbb] s') =
                   Returns ([xaa; xbb], true, Some (header.mkAbsolute 3 110 20 2 1)) s'')
    by (vm_compute; reflexivity).
  exists s', s''. eexists.
  refine (conj Hnext (conj Hst (conj Hretry _))).
  vm_compute. reflexivity.
Defined.

(** ** Errors and termination of the decoder *)

(** X11: the two protocol errors of a step, once the header is decoded.
    A channel id above MAX_CHANNELS without a channel raises IndexError
    and creates nothing; a relative header for a channel that has no
    header yet (a new channel included) raises HeaderError, with the
    channel stored.  In both cases the header bytes stay consumed. *)
Theorem next_protocol_errors (s s1 : Codec.t) (h : header.Header) :
  FrameReader.readHeader s = Returns h s1 ->
  (Codec.channels s !! header.id h = None -> MAX_CHANNELS < header.id h ->
     FrameReader.next s = Raises IndexError s1
     /\ Codec.channels s1 = Codec.channels s)
  /\ (header.relative h = true ->
      Channel.header (channel_for (header.id h) s) = None ->
      (Codec.channels s !! header.id h = None -> header.id h <= MAX_CHANNELS) ->
      FrameReader.next s =
        Raises HeaderError
               (Codec.mk (Codec.stream s1)
                         (<[header.id h := channel_for (header.id h) s]>
                            (Codec.channels s))
                         (Codec.frameSize s))).
Proof.
  intros Hh. split.
  - intros Hnone Hbig. pose proof (readHeader_state _ _ _ Hh) as Hs1.
    split; [|rewrite Hs1; reflexivity].
    unfold FrameReader.next, FrameReader.read. unfold bind at 1. rewrite Hh.
    unfold bind at 1. unfold Codec.getChannel. rewrite Hs1. cbn [Codec.channels].
    rewrite Hnone. destruct (header.id h >? MAX_CHANNELS) eqn:E; [reflexivity|lia].
  - intros Hrel Hnohdr Hle. unfold FrameReader.next.
    rewrite (read_with_header _ _ _ Hh Hle).
    destruct h as [a|r]; [discriminate|].
    unfold bind at 1. unfold Channel.in_channel at 1. unfold zoom at 1.
    cbn [fst snd Channel.setHeader]. rewrite Hnohdr. reflexivity.
Qed.

Lemma next_protocol_errors_witness :
  let far := Codec.__init__ (Some (BufferedByteStream.mk [xc0; x01; xaa] 0)) in
  let continuation := Codec.__init__ (Some (BufferedByteStream.mk [xc3; xaa] 0)) in
  FrameReader.next far =
    Raises IndexError (Codec.mk (BufferedByteStream.mk [xc0; x01; xaa] 2) ∅ 128)
  /\ FrameReader.next continuation =
       Raises HeaderError
              (Codec.mk (BufferedByteStream.mk [xc3; xaa] 1)
                        {[ 3 := Channel.__init__ 3 128 ]} 128).
Proof.
  intros far continuation.
  assert (Hfar : FrameReader.readHeader far =
                 Returns (header.Rel (header.mkRelative 65 None None None None))
                         (Codec.mk (BufferedByteStream.mk [xc0; x01; xaa] 2) ∅ 128))
    by (vm_compute; reflexivity).
  assert (Hcont : FrameReader.readHeader continuation =
                  Returns (header.Rel (header.mkRelative 3 None None None None))
                          (Codec.mk (BufferedByteStream.mk [xc3; xaa] 1) ∅ 128))
    by (vm_compute; reflexivity).
  destruct (next_protocol_errors _ _ _ Hfar) as (Hindex & _).
  destruct (next_protocol_errors _ _ _ Hcont) as (_ & Hheader).
  assert (Hnone : Codec.channels far !! 65 = None) by reflexivity.
  assert (Hbig : MAX_CHANNELS < 65) by (vm_compute; reflexivity).
  assert (Hle : Codec.channels continuation !! 3 = None -> 3 <= MAX_CHANNELS)
    by (intros _; vm_compute; discriminate).
  exact (conj (proj1 (Hindex Hnone Hbig)) (Hheader eq_refl eq_refl Hle)).
Defined.

Lemma next_raises (s s' : Codec.t) (e : Exception) :
  FrameReader.next s = Raises e s' ->
  e = IOError \/ e = StopIteration \/ e = IndexError \/ e = HeaderError.
Proof.
  unfold FrameReader.next.
  destruct (FrameReader.read s) as [a s0|e0 s0|] eqn:Hread; [discriminate| |discriminate].
  destruct (read_raises _ _ _ Hread) as [-> | (h & s1 & _ & _ & [-> | ->])].
  - destruct (BufferedByteStream.at_eof _); intros [= <- _]; auto.
  - intros [= <- _]. auto.
  - intros [= <- _]. auto.
Qed.

Lemma next_total (s : Codec.t) :
  frame_sizes_agree s -> 0 < Codec.frameSize s -> FrameReader.next s <> Diverges.
Proof.
  intros Hsizes Hpos. pose proof (read_total s Hsizes Hpos) as Hread.
  unfold FrameReader.next.
  destruct (FrameReader.read s) as [a s0|e s0|]; [discriminate| |contradiction].
  destruct e; try discriminate. destruct (BufferedByteStream.at_eof _); discriminate.
Qed.

(** X12: the decoder raises what the frame reader raises and nothing
    else: IOError, StopIteration, IndexError or HeaderError.  The frame
    reader never hands it a frame without a header, so the attribute
    lookup on [meta] cannot fail.  When it raises, nothing has been
    buffered, no stream was asked for and nothing was dispatched. *)
Theorem decoder_next_raises (d d' : Decoder.t) (e : Exception) :
  Decoder.next d = Raises e d' ->
  FrameReader.next (ChannelDemuxer.codec (Decoder.demuxer d))
  = Raises e (ChannelDemuxer.codec (Decoder.demuxer d'))
  /\ (e = IOError \/ e = StopIteration \/ e = IndexError \/ e = HeaderError)
  /\ ChannelDemuxer.bucket (Decoder.demuxer d') = ChannelDemuxer.bucket (Decoder.demuxer d)
  /\ Decoder.dispatcher d' = Decoder.dispatcher d
  /\ Decoder.stream_factory d' = Decoder.stream_factory d.
Proof.
  unfold Decoder.next. unfold bind at 1. unfold Decoder.in_demuxer, zoom.
  unfold ChannelDemuxer.next. unfold bind at 1. unfold ChannelDemuxer.in_reader, zoom.
  destruct (FrameReader.next (ChannelDemuxer.codec (Decoder.demuxer d)))
    as [[[data complete] meta] c'|e0 c'|] eqn:Hnext; [| |discriminate].
  - destruct (next_carries_header _ _ _ _ _ Hnext) as (m & ->).
    destruct (bool_decide _); [discriminate|].
    destruct complete; discriminate.
  - intros [= <- <-]. cbn. split; [reflexivity|].
    split; [exact (next_raises _ _ _ Hnext)|]. auto.
Qed.

Lemma decoder_next_raises_witness :
  let d := Decoder.__init__ [] (Decoder.mkFactory ∅ [])
             (Some (BufferedByteStream.mk [xc3; xaa] 0)) in
  exists d', Decoder.next d = Raises HeaderError d'
             /\ Decoder.dispatcher d' = []
             /\ ChannelDemuxer.bucket (Decoder.demuxer d') = ∅.
Proof.
  intros d.
  assert (Hnext : Decoder.next d =
                  Raises HeaderError
                    (Decoder.mk
                       (ChannelDemuxer.mk
                          (Codec.mk (BufferedByteStream.mk [xc3; xaa] 1)
                                    {[ 3 := Channel.__init__ 3 128 ]} 128) ∅)
                       [] (Decoder.mkFactory ∅ [])))
    by (vm_compute; reflexivity).
  destruct (decoder_next_raises _ _ _ Hnext) as (_ & _ & Hbucket & Hlog & _).
  eexists. exact (conj Hnext (conj Hlog Hbucket)).
Defined.

(** X13: with a positive frame size on the codec and on every channel a
    step of the decoder always ends: it returns or raises.  The countdown
    loop of [_adjustFrameRemaining], the only loop under it, is left for
    every frame length. *)
Theorem decoder_next_ends (d : Decoder.t) :
  frame_sizes_agree (ChannelDemuxer.codec (Decoder.demuxer d)) ->
  0 < Codec.frameSize (ChannelDemuxer.codec (Decoder.demuxer d)) ->
  Decoder.next d <> Diverges.
Proof.
  intros Hsizes Hpos. pose proof (next_total _ Hsizes Hpos) as Hnext.
  unfold Decoder.next. unfold bind at 1. unfold Decoder.in_demuxer, zoom.
  unfold ChannelDemuxer.next. unfold bind at 1. unfold ChannelDemuxer.in_reader, zoom.
  destruct (FrameReader.next (ChannelDemuxer.codec (Decoder.demuxer d)))
    as [[[data complete] meta] c'|e0 c'|]; [|discriminate|contradiction].
  destruct meta as [m|]; [|discriminate].
  destruct (bool_decide _); [discriminate|].
  destruct complete; discriminate.
Qed.

Lemma decoder_next_ends_witness :
  let wire := [x03; x00; x00; x05; x00; x00; x02; x14; x01; x00; x00; x00; xaa; xbb] in
  Decoder.next (Decoder.__init__ [] (Decoder.mkFactory ∅ [])
                  (Some (BufferedByteStream.mk wire 0))) <> Diverges.
Proof.
  intros wire. apply decoder_next_ends.
  - apply map_Forall_empty.
  - vm_compute. reflexivity.
Defined.

(** ** Releasing channels *)

(** What [releaseChannel] does for an id that is in the index. *)
Lemma releaseChannel_indexed (s : ChannelMuxer.t) (channelId : Z) (idx : nat) :
  channelId <= MAX_CHANNELS ->
  ChannelMuxer.activeChannelsIndex s !! channelId = Some idx ->
  exists channel codec',
    Codec.getChannel channelId (ChannelMuxer.codec s) = Returns channel codec'
    /\ ChannelMuxer.releaseChannel channelId s =
       if (idx <? length (ChannelMuxer.activeChannels s))%nat then
         Returns tt
           (ChannelMuxer.mk codec' (ChannelMuxer._minChannelId s)
              (ChannelMuxer._maxChannels s)
              (channelId :: ChannelMuxer.availableChannels s)
              (delete idx (ChannelMuxer.activeChannels s))
              (delete channelId (ChannelMuxer.activeChannelsIndex s))
              (ChannelMuxer.channelsInUse s - 1))
       else
         Raises IndexError
           (ChannelMuxer.mk codec' (ChannelMuxer._minChannelId s)
              (ChannelMuxer._maxChannels s)
              (ChannelMuxer.availableChannels s)
              (ChannelMuxer.activeChannels s)
              (delete channelId (ChannelMuxer.activeChannelsIndex s))
              (ChannelMuxer.channelsInUse s)).
Proof.
  intros Hle Hidx.
  destruct (getChannel_returns (ChannelMuxer.codec s) channelId Hle)
    as (channel & codec' & Hget).
  exists channel, codec'. split; [exact Hget|].
  unfold ChannelMuxer.releaseChannel. unfold_py. py_simpl. rewrite Hget. py_simpl.
  rewrite Hidx. py_simpl.
  destruct (idx <? length (ChannelMuxer.activeChannels s))%nat; reflexivity.
Qed.

(** X14: a channel that is acquired and released at once leaves the pool
    as it was: the id is back at the head of [availableChannels], and the
    active list, the index and the count are unchanged.  The channel
    object stays in the table of the codec. *)
Theorem aquire_release_round_trip (s : ChannelMuxer.t) (channelId : Z) (rest : list Z) :
  ChannelMuxer.availableChannels s = channelId :: rest ->
  channelId <= MAX_CHANNELS ->
  ChannelMuxer.activeChannelsIndex s !! channelId = None ->
  exists c s1 s2,
    ChannelMuxer.aquireChannel s = Returns (Some c) s1
    /\ ChannelMuxer.activeChannels s1 = ChannelMuxer.activeChannels s ++ [channelId]
    /\ ChannelMuxer.releaseChannel channelId s1 = Returns tt s2
    /\ Codec.channels (ChannelMuxer.codec s2)
       = <[channelId := c]> (Codec.channels (ChannelMuxer.codec s))
    /\ s2 = ChannelMuxer.mk (ChannelMuxer.codec s2) (ChannelMuxer._minChannelId s)
              (ChannelMuxer._maxChannels s) (ChannelMuxer.availableChannels s)
              (ChannelMuxer.activeChannels s) (ChannelMuxer.activeChannelsIndex s)
              (ChannelMuxer.channelsInUse s).
Proof.
  intros Havail Hle Hfresh.
  pose proof (getChannel_footprint channelId (ChannelMuxer.codec s)) as Hfoot.
  destruct (Codec.getChannel channelId (ChannelMuxer.codec s)) as [c codec1|e codec1|]
    eqn:Hget; [|destruct Hfoot as (_ & _ & _ & Hbig); lia|contradiction].
  destruct Hfoot as (_ & _ & Hch & _).
  assert (Haq : ChannelMuxer.aquireChannel s =
                Returns (Some c)
                  (ChannelMuxer.mk codec1 (ChannelMuxer._minChannelId s)
                     (ChannelMuxer._maxChannels s) rest
                     (ChannelMuxer.activeChannels s ++ [channelId])
                     (<[channelId := length (ChannelMuxer.activeChannels s)]>
                        (ChannelMuxer.activeChannelsIndex s))
                     (ChannelMuxer.channelsInUse s + 1))).
  { unfold ChannelMuxer.aquireChannel. rewrite Havail. unfold_py. py_simpl.
    rewrite Hget. py_simpl. rewrite length_app. cbn [length].
    replace (length (ChannelMuxer.activeChannels s) + 1 - 1)%nat
      with (length (ChannelMuxer.activeChannels s)) by lia.
    reflexivity. }
  rewrite Haq.
  match goal with |- context [Returns (Some c) ?s0] => set (s1 := s0) end.
  destruct (releaseChannel_indexed s1 channelId (length (ChannelMuxer.activeChannels s)) Hle)
    as (c' & codec2 & Hget2 & Hrel).
  { subst s1. cbn. apply lookup_insert_eq. }
  assert (Hcodec2 : codec2 = codec1).
  { subst s1. cbn [ChannelMuxer.codec] in Hget2. revert Hget2.
    unfold Codec.getChannel. rewrite Hch, lookup_insert_eq. now intros [= _ <-]. }
  subst codec2.
  assert (Hlt : (length (ChannelMuxer.activeChannels s)
                 <? length (ChannelMuxer.activeChannels s1))%nat = true).
  { subst s1. cbn. rewrite length_app. cbn. apply Nat.ltb_lt. lia. }
  rewrite Hlt in Hrel.
  eexists c, s1, _. split; [reflexivity|]. split; [reflexivity|].
  split; [exact Hrel|]. cbn. split; [exact Hch|].
  rewrite Havail. f_equal.
  - replace (ChannelMuxer.activeChannels s ++ [channelId])
      with (ChannelMuxer.activeChannels s ++ channelId :: []) by reflexivity.
    rewrite delete_middle. apply app_nil_r.
  - now apply delete_insert_id.
  - lia.
Qed.

Lemma aquire_release_round_trip_witness :
  let s := ChannelMuxer.__init__ None in
  exists c s1 s2,
    ChannelMuxer.aquireChannel s = Returns (Some c) s1
    /\ ChannelMuxer.releaseChannel 3 s1 = Returns tt s2
    /\ ChannelMuxer.availableChannels s2 = ChannelMuxer.availableChannels s
    /\ ChannelMuxer.activeChannels s2 = [].
Proof.
  intros s.
  assert (Havail : ChannelMuxer.availableChannels s = 3 :: seqZ 4 60)
    by (vm_compute; reflexivity).
  assert (Hle : 3 <= MAX_CHANNELS) by (vm_compute; discriminate).
  assert (Hfresh : ChannelMuxer.activeChannelsIndex s !! 3 = None) by reflexivity.
  destruct (aquire_release_round_trip s 3 _ Havail Hle Hfresh)
    as (c & s1 & s2 & Haq & _ & Hrel & _ & Hs2).
  exists c, s1, s2.
  refine (conj Haq (conj Hrel _)). rewrite Hs2. split; reflexivity.
Defined.

Lemma releaseChannel_unindexed (s : ChannelMuxer.t) (channelId : Z) :
  channelId <= MAX_CHANNELS ->
  ChannelMuxer.activeChannelsIndex s !! channelId = None ->
  exists s', ChannelMuxer.releaseChannel channelId s = Raises EncodeError s'.
Proof.
  intros Hle Hidx.
  destruct (getChannel_returns (ChannelMuxer.codec s) channelId Hle)
    as (channel & codec' & Hget).
  unfold ChannelMuxer.releaseChannel. unfold_py. py_simpl. rewrite Hget. py_simpl.
  rewrite Hidx. eauto.
Qed.

(** X15: the index of the active channels is not kept up to date.
    [releaseChannel] deletes the entry of the list at the position the
    index remembers, and leaves the positions of the channels behind it
    as they were in the index.  So, once a channel [a] in front of [b] has
    been released, releasing [b] goes wrong: when [b] was the last of the
    list, IndexError is raised, [b] stays active for good (a further
    release raises EncodeError) and its id never returns to the pool;
    otherwise the channel behind [b] is removed from the active list in
    its place and [b], still active, is handed back to the pool. *)
Theorem release_uses_stale_index (s : ChannelMuxer.t) (a b : Z) (i j : nat) :
  a <= MAX_CHANNELS -> b <= MAX_CHANNELS ->
  ChannelMuxer.activeChannelsIndex s !! a = Some i ->
  ChannelMuxer.activeChannelsIndex s !! b = Some j ->
  ChannelMuxer.activeChannels s !! j = Some b ->
  (i < j)%nat ->
  exists s1,
    ChannelMuxer.releaseChannel a s = Returns tt s1
    /\ ChannelMuxer.activeChannels s1 = delete i (ChannelMuxer.activeChannels s)
    /\ ChannelMuxer.activeChannels s1 !! (j - 1)%nat = Some b
    /\ ChannelMuxer.activeChannelsIndex s1 !! b = Some j
    /\ match ChannelMuxer.activeChannels s !! S j with
       | None =>
           exists s2 s3,
             ChannelMuxer.releaseChannel b s1 = Raises IndexError s2
             /\ ChannelMuxer.activeChannels s2 = ChannelMuxer.activeChannels s1
             /\ ChannelMuxer.availableChannels s2 = ChannelMuxer.availableChannels s1
             /\ ChannelMuxer.channelsInUse s2 = ChannelMuxer.channelsInUse s1
             /\ ChannelMuxer.releaseChannel b s2 = Raises EncodeError s3
       | Some c =>
           exists s2,
             ChannelMuxer.releaseChannel b s1 = Returns tt s2
             /\ ChannelMuxer.activeChannels s1 !! j = Some c
             /\ ChannelMuxer.activeChannels s2 = delete j (ChannelMuxer.activeChannels s1)
             /\ ChannelMuxer.activeChannels s2 !! (j - 1)%nat = Some b
             /\ ChannelMuxer.availableChannels s2
                = b :: a :: ChannelMuxer.availableChannels s
       end.
Proof.
  intros Ha Hb Hia Hjb Hactive Hij.
  assert (Hne : a <> b) by (intros ->; rewrite Hia in Hjb; injection Hjb; lia).
  pose proof (lookup_lt_Some _ _ _ Hactive) as Hj.
  destruct (releaseChannel_indexed s a i Ha Hia) as (ca & codec1 & _ & Hrel1).
  replace (i <? length (ChannelMuxer.activeChannels s))%nat with true in Hrel1
    by (symmetry; apply Nat.ltb_lt; lia).
  eexists. split; [exact Hrel1|]. cbn.
  split; [reflexivity|].
  assert (Hmoved : delete i (ChannelMuxer.activeChannels s) !! (j - 1)%nat = Some b).
  { rewrite list_lookup_delete_ge by lia.
    replace (S (j - 1)) with j by lia. exact Hactive. }
  split; [exact Hmoved|].
  assert (Hkept : delete a (ChannelMuxer.activeChannelsIndex s) !! b = Some j)
    by (rewrite lookup_delete_ne by exact Hne; exact Hjb).
  split; [exact Hkept|].
  match type of Hrel1 with _ = Returns tt ?s0 => set (s1 := s0) in * end.
  destruct (releaseChannel_indexed s1 b j Hb Hkept) as (cb & codec2 & _ & Hrel2).
  assert (Hlen : length (ChannelMuxer.activeChannels s1)
                 = (length (ChannelMuxer.activeChannels s) - 1)%nat).
  { subst s1. cbn. rewrite length_delete by (apply lookup_lt_is_Some; lia). lia. }
  destruct (ChannelMuxer.activeChannels s !! S j) as [c|] eqn:Hnext.
  - pose proof (lookup_lt_Some _ _ _ Hnext) as HSj.
    replace (j <? length (ChannelMuxer.activeChannels s1))%nat with true in Hrel2
      by (symmetry; apply Nat.ltb_lt; lia).
    eexists. split; [exact Hrel2|]. cbn.
    split; [rewrite list_lookup_delete_ge by lia; exact Hnext|].
    split; [reflexivity|].
    split; [|reflexivity].
    rewrite list_lookup_delete_lt by lia. exact Hmoved.
  - apply lookup_ge_None in Hnext.
    replace (j <? length (ChannelMuxer.activeChannels s1))%nat with false in Hrel2
      by (symmetry; apply Nat.ltb_ge; lia).
    match type of Hrel2 with _ = Raises IndexError ?s0 => set (s2 := s0) in * end.
    destruct (releaseChannel_unindexed s2 b Hb) as (s3 & Hrel3).
    { subst s2. cbn. apply lookup_delete_eq. }
    exists s2, s3. split; [exact Hrel2|]. cbn. auto.
Qed.

Lemma release_uses_stale_index_witness :
  let s := state_after ((ChannelMuxer.aquireChannel ;;; ChannelMuxer.aquireChannel ;;;
                         ChannelMuxer.aquireChannel) (ChannelMuxer.__init__ None))
                       (ChannelMuxer.__init__ None) in
  ChannelMuxer.activeChannels s = [3; 4; 5]
  /\ exists s1 s2,
       ChannelMuxer.releaseChannel 3 s = Returns tt s1
       /\ ChannelMuxer.releaseChannel 4 s1 = Returns tt s2
       /\ ChannelMuxer.activeChannels s2 = [4]
       /\ ChannelMuxer.availableChannels s2 = 4 :: 3 :: seqZ 6 58.
Proof.
  intros s.
  assert (Hactive : ChannelMuxer.activeChannels s = [3; 4; 5]) by (vm_compute; reflexivity).
  split; [exact Hactive|].
  assert (H3 : 3 <= MAX_CHANNELS) by (vm_compute; discriminate).
  assert (H4 : 4 <= MAX_CHANNELS) by (vm_compute; discriminate).
  assert (Hi3 : ChannelMuxer.activeChannelsIndex s !! 3 = Some 0%nat)
    by (vm_compute; reflexivity).
  assert (Hi4 : ChannelMuxer.activeChannelsIndex s !! 4 = Some 1%nat)
    by (vm_compute; reflexivity).
  assert (Hat : ChannelMuxer.activeChannels s !! 1%nat = Some 4)
    by (vm_compute; reflexivity).
  destruct (release_uses_stale_index s 3 4 0 1 H3 H4 Hi3 Hi4 Hat (Nat.lt_0_succ 0))
    as (s1 & Hrel1 & Hs1 & _ & _ & Hsecond).
  replace (ChannelMuxer.activeChannels s !! 2%nat) with (Some 5) in Hsecond
    by (vm_compute; reflexivity).
  destruct Hsecond as (s2 & Hrel2 & _ & Hs2 & _ & Havail).
  exists s1, s2.
  refine (conj Hrel1 (conj Hrel2 (conj _ _))).
  - rewrite Hs2, Hs1, Hactive. reflexivity.
  - rewrite Havail. vm_compute. reflexivity.
Defined.

Lemma pool_ids_init stream : pool_ids (ChannelMuxer.__init__ stream).
Proof.
  constructor; cbn -[seqZ].
  - apply codec_invariant_init.
  - apply Forall_forall. intros id Hin. apply elem_of_seqZ in Hin.
    unfold MAX_CHANNELS, MIN_CHANNEL_ID in *. lia.
  - apply map_Forall_empty.
Qed.

Lemma pool_ids_aquire (s s' : ChannelMuxer.t) (r : option Channel.t) :
  pool_ids s -> ChannelMuxer.aquireChannel s = Returns r s' ->
  pool_ids s'
  /\ match r with
     | Some c =>
         hd_error (ChannelMuxer.availableChannels s) = Some (Channel.channelId c)
         /\ Codec.channels (ChannelMuxer.codec s') !! Channel.channelId c = Some c
     | None => ChannelMuxer.availableChannels s = []
     end.
Proof.
  intros [Hcodec Havail Hindex]. unfold ChannelMuxer.aquireChannel.
  destruct (ChannelMuxer.availableChannels s) as [|channelId rest] eqn:Hpool.
  - intros [= <- <-]. split; [|reflexivity]. constructor; try assumption.
    now rewrite Hpool.
  - apply Forall_cons in Havail as [Hid Hrest].
    unfold_py. py_simpl.
    pose proof (codec_invariant_getChannel channelId (ChannelMuxer.codec s) Hcodec) as Hinv.
    pose proof (getChannel_footprint channelId (ChannelMuxer.codec s)) as Hfoot.
    destruct (Codec.getChannel channelId (ChannelMuxer.codec s)) as [c cs|e cs|];
      [|discriminate..].
    py_simpl. intros [= <- <-]. destruct Hinv as (Hinv & Hcid & _).
    destruct Hfoot as (_ & _ & Hch & _).
    split; [constructor; cbn|cbn].
    + exact Hinv.
    + exact Hrest.
    + apply map_Forall_insert_2; assumption.
    + rewrite Hcid. split; [reflexivity|]. rewrite Hch. apply lookup_insert_eq.
Qed.

Lemma pool_ids_release (s s' : ChannelMuxer.t) (channelId : Z) :
  pool_ids s -> ChannelMuxer.releaseChannel channelId s = Returns tt s' ->
  pool_ids s'.
Proof.
  intros [Hcodec Havail Hindex]. unfold ChannelMuxer.releaseChannel.
  unfold_py. py_simpl.
  pose proof (codec_invariant_getChannel channelId (ChannelMuxer.codec s) Hcodec) as Hinv.
  destruct (Codec.getChannel channelId (ChannelMuxer.codec s)) as [c cs|e cs|];
    try discriminate.
  py_simpl. destruct Hinv as (Hinv & _).
  destruct (ChannelMuxer.activeChannelsIndex s !! channelId) as [idx|] eqn:Hidx;
    [|discriminate].
  py_simpl.
  destruct (idx <? length (ChannelMuxer.activeChannels s))%nat; [|discriminate].
  intros [= <-]. constructor; cbn.
  - exact Hinv.
  - apply Forall_cons. split; [exact (Hindex channelId idx Hidx)|assumption].
  - apply map_Forall_delete; assumption.
Qed.

Lemma reachable_pool_ids (s : ChannelMuxer.t) : reachable s -> pool_ids s.
Proof.
  induction 1 as [stream | s r s' _ IH Hstep | s channelId s' _ IH Hstep].
  - apply pool_ids_init.
  - exact (proj1 (pool_ids_aquire s s' r IH Hstep)).
  - exact (pool_ids_release s s' channelId IH Hstep).
Qed.

(** X16: after any sequence of calls of [aquireChannel] and returning
    calls of [releaseChannel], the channel that [aquireChannel] hands out
    has the id at the head of the pool, an id from MIN_CHANNEL_ID to
    MAX_CHANNELS - 1 (3 to 63), and it is the channel stored under that id;
    [None] is returned only when the pool is empty. *)
Theorem aquired_ids_in_range (s s' : ChannelMuxer.t) (r : option Channel.t) :
  reachable s ->
  ChannelMuxer.aquireChannel s = Returns r s' ->
  match r with
  | Some c =>
      3 <= Channel.channelId c <= 63
      /\ hd_error (ChannelMuxer.availableChannels s) = Some (Channel.channelId c)
      /\ Codec.channels (ChannelMuxer.codec s') !! Channel.channelId c = Some c
  | None => ChannelMuxer.availableChannels s = []
  end.
Proof.
  intros Hreach Haq. pose proof (reachable_pool_ids s Hreach) as Hids.
  destruct (pool_ids_aquire s s' r Hids Haq) as (_ & Hr).
  destruct r as [c|]; [|exact Hr]. destruct Hr as (Hhead & Hstored).
  split; [|split; assumption].
  destruct Hids as [_ Havail _].
  destruct (ChannelMuxer.availableChannels s) as [|id rest]; [discriminate|].
  injection Hhead as <-. apply Forall_cons in Havail as [Hid _].
  unfold MIN_CHANNEL_ID, MAX_CHANNELS in Hid. lia.
Qed.

Lemma aquired_ids_in_range_witness :
  let s := state_after (ChannelMuxer.aquireChannel (ChannelMuxer.__init__ None))
                       (ChannelMuxer.__init__ None) in
  exists c s',
    ChannelMuxer.aquireChannel s = Returns (Some c) s'
    /\ Channel.channelId c = 4
    /\ 3 <= Channel.channelId c <= 63.
Proof.
  intros s.
  assert (Hs : reachable s).
  { eapply reachable_aquire; [apply (reachable_init None)|vm_compute; reflexivity]. }
  pose (c := Channel.__init__ 4 128).
  assert (Haq : exists s', ChannelMuxer.aquireChannel s = Returns (Some c) s')
    by (eexists; vm_compute; reflexivity).
  destruct Haq as (s' & Haq).
  destruct (aquired_ids_in_range s s' (Some c) Hs Haq) as (Hrange & _).
  exists c, s'. exact (conj Haq (conj eq_refl Hrange)).
Defined.

(** ** Runs of the encoder *)

Lemma pool_ready_init stream : pool_ready (ChannelMuxer.__init__ stream).
Proof. split; [apply pool_invariant_init|reflexivity]. Qed.

Lemma pool_ready_full (s : ChannelMuxer.t) :
  pool_ready s ->
  ChannelMuxer.isFull s = true <-> ChannelMuxer.availableChannels s = [].
Proof.
  intros [[Htotal Huse _ _] Hsize]. unfold ChannelMuxer.isFull.
  rewrite Hsize, <- Huse, <- Htotal. rewrite Z.eqb_eq.
  destruct (ChannelMuxer.availableChannels s); cbn [length]; split;
    try reflexivity; try discriminate; lia.
Qed.

(** One [send] in a ready state. *)
Lemma send_step (e : Encoder.t) (data : str) (datatype streamId timestamp : Z) :
  pool_ready (Encoder.muxer e) ->
  exists e',
    Encoder.send data datatype streamId timestamp e = Returns tt e'
    /\ pool_ready (Encoder.muxer e')
    /\ match ChannelMuxer.availableChannels (Encoder.muxer e) with
       | [] =>
           e' = Encoder.mk (Encoder.muxer e)
                  (Encoder.pending e ++ [(streamId, datatype, timestamp, data)])
       | channelId :: rest =>
           Encoder.pending e' = Encoder.pending e
           /\ ChannelMuxer.availableChannels (Encoder.muxer e') = rest
           /\ ChannelMuxer.activeChannels (Encoder.muxer e')
              = ChannelMuxer.activeChannels (Encoder.muxer e) ++ [channelId]
       end.
Proof.
  intros Hready. pose proof (pool_ready_full _ Hready) as Hfull.
  destruct (ChannelMuxer.availableChannels (Encoder.muxer e)) as [|channelId rest]
    eqn:Havail.
  - eexists. split; [apply send_queues_when_full; now apply Hfull|].
    split; [exact Hready|reflexivity].
  - assert (Hfree : ChannelMuxer.isFull (Encoder.muxer e) = false).
    { destruct (ChannelMuxer.isFull (Encoder.muxer e)); [|reflexivity].
      now destruct Hfull as [Hempty _]; specialize (Hempty eq_refl). }
    destruct Hready as [[Htotal Huse Hids Hindex] Hsize].
    rewrite Havail in Htotal, Hids. apply Forall_cons in Hids as [Hid Hrest].
    destruct (send_acquires_when_free e data datatype streamId timestamp
                channelId rest Hfree Havail Hid) as (channel & codec' & _ & Hsend).
    cbv zeta in Hsend. eexists. split; [exact Hsend|]. cbn.
    split; [|auto].
    split; [constructor|]; cbn; rewrite ?length_app; cbn in *.
    + lia.
    + lia.
    + exact Hrest.
    + apply map_Forall_insert_2; assumption.
    + exact Hsize.
Qed.

(** X17: a run of [Encoder.send] calls on a consistent pool always
    returns.  The first messages take the free channel ids in the order of
    the pool, one each; the messages for which no id is left are appended
    to [pending] in their order, as (streamId, datatype, timestamp, data).
    Messages that waited before are not served first. *)
Theorem send_all_assigns_then_queues (messages : list (str * Z * Z * Z)) (e : Encoder.t) :
  pool_ready (Encoder.muxer e) ->
  exists e',
    send_all messages e = Returns tt e'
    /\ pool_ready (Encoder.muxer e')
    /\ let free := ChannelMuxer.availableChannels (Encoder.muxer e) in
       ChannelMuxer.availableChannels (Encoder.muxer e') = drop (length messages) free
       /\ ChannelMuxer.activeChannels (Encoder.muxer e')
          = ChannelMuxer.activeChannels (Encoder.muxer e) ++ take (length messages) free
       /\ Encoder.pending e'
          = Encoder.pending e ++ (pending_entry <$> drop (length free) messages).
Proof.
  revert e. induction messages as [|[[[data datatype] streamId] timestamp] rest IH];
    intros e Hready.
  - exists e. split; [reflexivity|]. split; [exact Hready|]. cbn.
    rewrite drop_0, take_0, drop_nil, !app_nil_r. auto.
  - destruct (send_step e data datatype streamId timestamp Hready)
      as (e1 & Hsend & Hready1 & Hstep).
    destruct (IH e1 Hready1) as (e' & Hrest & Hready' & Havail & Hactive & Hpending).
    exists e'. cbn [send_all]. unfold bind at 1. rewrite Hsend.
    split; [exact Hrest|]. split; [exact Hready'|]. cbv zeta.
    destruct (ChannelMuxer.availableChannels (Encoder.muxer e)) as [|channelId free]
      eqn:Hfree.
    + subst e1. cbn in Havail, Hactive, Hpending. rewrite Hfree in Havail, Hactive, Hpending.
      cbn [length drop take]. rewrite Havail, Hactive, Hpending.
      rewrite drop_nil, take_nil, drop_0, <- app_assoc. auto.
    + destruct Hstep as (Hp & Ha & Hact). cbn [length drop take].
      rewrite Havail, Hactive, Hpending, Hp, Ha, Hact, <- app_assoc. auto.
Qed.

Lemma send_all_assigns_then_queues_witness :
  send_all saturating (Encoder.__init__ None) = Returns tt saturated
  /\ ChannelMuxer.availableChannels (Encoder.muxer saturated) = []
  /\ ChannelMuxer.activeChannels (Encoder.muxer saturated) = seqZ 3 61
  /\ Encoder.pending saturated = [(7, 20, 5, [x01])].
Proof.
  destruct (send_all_assigns_then_queues saturating (Encoder.__init__ None)
              (pool_ready_init None))
    as (e' & Hrun & _ & Havail & Hactive & Hpending).
  assert (He' : e' = saturated) by (unfold saturated; now rewrite Hrun).
  subst e'. refine (conj Hrun (conj _ (conj _ _))).
  - rewrite Havail. vm_compute. reflexivity.
  - rewrite Hactive. vm_compute. reflexivity.
  - rewrite Hpending. vm_compute. reflexivity.
Defined.

(** ** Reassembly in the demuxer *)

Lemma read_all_step (k : nat) (s s' : Codec.t)
    (frame : str * bool * option header.Absolute)
    (frames : list (str * bool * option header.Absolute)) :
  read_all (S k) s = Returns (frame :: frames) s' ->
  exists s1, FrameReader.next s = Returns frame s1
             /\ read_all k s1 = Returns frames s'.
Proof.
  cbn [read_all]. unfold bind at 1.
  destruct (FrameReader.next s) as [f s1|e s1|]; [|discriminate..].
  unfold bind at 1.
  destruct (read_all k s1) as [fs s2|e s2|] eqn:Hrest; [|discriminate..].
  intros [= <- <- <-]. eauto.
Qed.

Lemma demuxer_step (d : ChannelDemuxer.t) (data : str) (complete : bool)
    (meta : header.Absolute) (c' : Codec.t) :
  FrameReader.next (ChannelDemuxer.codec d) = Returns (data, complete, Some meta) c' ->
  header.datatype meta ∉ message.STREAMABLE_TYPES ->
  let channelId := header.channelId meta in
  let held := default [] (ChannelDemuxer.bucket d !! channelId) in
  ChannelDemuxer.next d =
    if complete then
      Returns (Some (held ++ data, meta))
              (ChannelDemuxer.mk c' (delete channelId (ChannelDemuxer.bucket d)))
    else
      Returns None
              (ChannelDemuxer.mk c' (<[channelId := held ++ data]>
                                       (ChannelDemuxer.bucket d))).
Proof.
  intros Hframe Hplain channelId held.
  unfold ChannelDemuxer.next. unfold_py. rewrite Hframe. cbn [ChannelDemuxer.bucket].
  rewrite bool_decide_eq_false_2 by exact Hplain. now destruct complete.
Qed.

(** X18: the demuxer puts a message back together.  When the frame reader
    returns, in a row, the frames of one message of a channel, of a
    datatype that is not streamable, the demuxer returns nothing for each
    frame but the last, and for the last the bytes it held for the
    channel followed by the frames in their order, with the header of the
    last frame; the accumulator of the channel is removed and the others
    are left alone. *)
Theorem demuxer_reassembles (channelId : Z)
    (frames : list (str * bool * option header.Absolute)) :
  forall (d : ChannelDemuxer.t) (last : str) (meta : header.Absolute) (c' : Codec.t),
    read_all (S (length frames)) (ChannelDemuxer.codec d)
    = Returns (frames ++ [(last, true, Some meta)]) c' ->
    Forall (partial_frame channelId) frames ->
    header.channelId meta = channelId ->
    header.datatype meta ∉ message.STREAMABLE_TYPES ->
    demux_all (S (length frames)) d =
      Returns (replicate (length frames) None
               ++ [Some (default [] (ChannelDemuxer.bucket d !! channelId)
                         ++ concat ((fun frame => fst (fst frame)) <$> frames) ++ last,
                         meta)])
              (ChannelDemuxer.mk c' (delete channelId (ChannelDemuxer.bucket d))).
Proof.
  induction frames as [|frame frames IH]; intros d last meta c' Hrun Hpartial Hid Hplain.
  - cbn [length app] in Hrun. apply read_all_step in Hrun as (s1 & Hnext & Hrest).
    cbn [read_all] in Hrest. injection Hrest as <-.
    cbn [length demux_all]. unfold bind at 1.
    rewrite (demuxer_step _ _ _ _ _ Hnext Hplain). rewrite Hid. reflexivity.
  - apply Forall_cons in Hpartial as [(data & m & -> & Hm & Hmplain) Hpartial].
    cbn [length] in Hrun. rewrite <- app_comm_cons in Hrun.
    apply read_all_step in Hrun as (s1 & Hnext & Hrest).
    change (demux_all (S (length ((data, false, Some m) :: frames))) d)
      with ((message <- ChannelDemuxer.next ;;
             rest <- demux_all (S (length frames)) ;;
             ret (message :: rest)) d).
    unfold bind at 1. rewrite (demuxer_step _ _ _ _ _ Hnext Hmplain). rewrite Hm.
    unfold bind at 1.
    rewrite (IH (ChannelDemuxer.mk s1 _) last meta c' Hrest Hpartial Hid Hplain).
    cbn [ChannelDemuxer.bucket ret]. rewrite lookup_insert_eq, delete_insert_eq.
    cbn [default from_option fmap list_fmap concat fst length replicate app].
    unfold ret. do 4 f_equal. unfold Datatypes.id. now rewrite <- !app_assoc.
Qed.

Lemma demuxer_reassembles_witness :
  let wire := [x03; x00; x00; x00; x00; x00; x03; x14; x01; x00; x00; x00;
               xaa; xbb; xc3; xcc] in
  let meta := header.mkAbsolute 3 0 20 3 1 in
  let d := ChannelDemuxer.mk
             (Codec.setFrameSize 2 (Codec.__init__ (Some (BufferedByteStream.mk wire 0))))
             ∅ in
  exists c',
    demux_all 2 d = Returns [None; Some ([xaa; xbb; xcc], meta)] (ChannelDemuxer.mk c' ∅).
Proof.
  intros wire meta d.
  pose (c' := Codec.mk (BufferedByteStream.mk wire 16)
                       {[ 3 := Channel.mk 3 (Some meta) 2 0 None 2 ]} 2).
  assert (Hrun : read_all 2 (ChannelDemuxer.codec d) =
                 Returns ([([xaa; xbb], false, Some meta)] ++ [([xcc], true, Some meta)]) c')
    by (vm_compute; reflexivity).
  assert (Hplain : header.datatype meta ∉ message.STREAMABLE_TYPES)
    by (apply (bool_decide_unpack _); vm_compute; exact I).
  assert (Hpartial : Forall (partial_frame 3) [([xaa; xbb], false, Some meta)]).
  { apply Forall_cons. split; [|apply Forall_nil_2].
    exists [xaa; xbb], meta. exact (conj eq_refl (conj eq_refl Hplain)). }
  exists c'.
  exact (demuxer_reassembles 3 [([xaa; xbb], false, Some meta)] d [xcc] meta c'
           Hrun Hpartial eq_refl Hplain).
Defined.

(** ** The step of the encoder *)

(** The pump returns when no channel is active; with an active channel it
    raises at the first one and has changed nothing. *)
Lemma pump_outcome (s : ChannelMuxer.t) :
  ChannelMuxer.next s =
    match ChannelMuxer.activeChannels s with
    | [] => Returns tt s
    | _ :: _ => Raises AttributeError s
    end.
Proof.
  unfold ChannelMuxer.next.
  destruct (ChannelMuxer.activeChannels s) as [|ref rest] eqn:Hactive.
  - cbn [length ChannelMuxer.for_active]. now rewrite Hactive.
  - cbn [length]. cbn [ChannelMuxer.for_active]. rewrite Hactive. cbn [lookup list_lookup].
    unfold bind. now rewrite visit_raises.
Qed.

(** X19: what a step of the encoder does, in every state.  With an active
    channel [Encoder.next] raises AttributeError at the first call of the
    pump ([writeHeader] is defined by no class) and changes nothing: no
    frame is written, no channel released, no pending message served.
    With no active channel it raises StopIteration when nothing is
    pending; when a message is pending it returns unchanged if the pool is
    full, and otherwise takes the oldest entry out of [pending] and raises
    TypeError.  So the step always ends and never changes the muxer. *)
Theorem encoder_next_outcome (e : Encoder.t) :
  Encoder.next e =
    match ChannelMuxer.activeChannels (Encoder.muxer e), Encoder.pending e with
    | _ :: _, _ => Raises AttributeError e
    | [], [] => Raises StopIteration e
    | [], _ :: rest =>
        if ChannelMuxer.isFull (Encoder.muxer e) then Returns tt e
        else Raises TypeError (Encoder.mk (Encoder.muxer e) rest)
    end.
Proof.
  destruct e as [m pending]. unfold Encoder.next. unfold bind at 1.
  unfold Encoder.in_muxer, zoom. cbn [Encoder.muxer Encoder.pending].
  rewrite pump_outcome.
  destruct (ChannelMuxer.activeChannels m) as [|ref active] eqn:Hactive; [|reflexivity].
  unfold bind, get. cbn [Encoder.muxer Encoder.pending].
  destruct pending as [|entry rest].
  - now rewrite Hactive.
  - unfold Encoder.drain, Encoder.send_popped. cbn [Encoder.muxer Encoder.pending tail].
    destruct (ChannelMuxer.isFull m); reflexivity.
Qed.
